(** * extract_features.py: sequence building, truncation and word alignment

    A shallow embedding of the feature-encoding and alignment code of
    [extract_features.py] (functions [_truncate_seq_pair],
    [convert_examples_to_features], [read_examples] and the alignment
    bookkeeping, validation and key assignment of [main]), and the
    properties the specification states about them.

    Python integers are unbounded, hence [Z]; Python lists are [list];
    a [str] is a [string] whose characters are the code points below 256;
    [set] and [dict] are stdpp's [gset] and [gmap].  An exception is the
    [Raise] branch of the [result] monad. *)

From Stdlib Require Import ZArith Ascii String List Lia.
From stdpp Require Import base option list sorting strings gmap pretty.
From Equations Require Import Equations.

Local Open Scope string_scope.
Local Open Scope list_scope.
Local Open Scope Z_scope.

(** ** Exceptions *)

(** The [assert] statements of the source, by the line they stand on. *)
Inductive assert_site : Set :=
  | AssertLenInputIds      (* line 283 *)
  | AssertLenInputMask     (* line 284 *)
  | AssertLenInputTypeIds  (* line 285 *)
  | AssertTrackerLen       (* line 403 *)
  | AssertTrackerLen2      (* line 427 *)
  | AssertTokensEqual      (* line 443 *)
  | AssertCountEqual       (* line 446 *)
  | AssertPrefixEqual.     (* line 448 *)

Inductive exn : Set :=
  | IndexError
  | KeyError
  | ValueError
  | AssertionError (site : assert_site).

Inductive result (A : Type) : Type :=
  | Ok (a : A)
  | Raise (e : exn).
Arguments Ok {A} a.
Arguments Raise {A} e.

#[global] Instance result_ret : MRet result := fun A a => Ok a.
#[global] Instance result_bind : MBind result := fun A B k r =>
  match r with
  | Ok a => k a
  | Raise e => Raise e
  end.

#[global] Instance result_fmap : FMap result := fun A B f r =>
  match r with
  | Ok a => Ok (f a)
  | Raise e => Raise e
  end.

Definition py_assert (b : bool) (site : assert_site) : result unit :=
  if b then Ok tt else Raise (AssertionError site).

Fixpoint mapM_result {A B : Type} (f : A -> result B) (l : list A)
  : result (list B) :=
  match l with
  | [] => Ok []
  | x :: l' => y ← f x; ys ← mapM_result f l'; Ok (y :: ys)
  end.

(** ** Python list and string primitives *)

Definition len {A : Type} (l : list A) : Z := Z.of_nat (length l).

(** [l.pop()]: removes the last element, [IndexError] on the empty list. *)
Definition pop {A : Type} (l : list A) : result (list A) :=
  match l with
  | [] => Raise IndexError
  | _ :: _ => Ok (removelast l)
  end.

(** [l[0:stop]]: a negative [stop] counts from the end of the list. *)
Definition slice_to {A : Type} (l : list A) (stop : Z) : list A :=
  if stop <? 0 then take (Z.to_nat (len l + stop)) l
  else take (Z.to_nat stop) l.

(** [l[i]] with Python's negative indices. *)
Definition getitem {A : Type} (l : list A) (i : Z) : result A :=
  let j := if i <? 0 then len l + i else i in
  if j <? 0 then Raise IndexError
  else match l !! Z.to_nat j with
       | Some x => Ok x
       | None => Raise IndexError
       end.

(** [str.isspace] on the code points below 256. *)
Definition is_space (c : ascii) : bool :=
  let n := nat_of_ascii c in
  ((9 <=? n) && (n <=? 13) || (28 <=? n) && (n <=? 32)
   || (n =? 133) || (n =? 160))%nat.

(** [s.split(" ")]: cuts at every single space, keeps empty fields. *)
Fixpoint split_space (s : string) : list string :=
  match s with
  | EmptyString => [EmptyString]
  | String c s' =>
      if Ascii.eqb c " "%char then EmptyString :: split_space s'
      else match split_space s' with
           | w :: ws => String c w :: ws
           | [] => [String c EmptyString]
           end
  end.

(** [s.split()]: cuts at runs of whitespace, no empty fields. *)
Fixpoint split (s : string) : list string :=
  match s with
  | EmptyString => []
  | String c s' =>
      if is_space c then split s'
      else match s' with
           | EmptyString => [String c EmptyString]
           | String c' _ =>
               if is_space c' then String c EmptyString :: split s'
               else match split s' with
                    | w :: ws => String c w :: ws
                    | [] => [String c EmptyString]
                    end
           end
  end.

Fixpoint lstrip (s : string) : string :=
  match s with
  | EmptyString => EmptyString
  | String c s' => if is_space c then lstrip s' else s
  end.

Fixpoint rstrip (s : string) : string :=
  match s with
  | EmptyString => EmptyString
  | String c s' =>
      match rstrip s' with
      | EmptyString => if is_space c then EmptyString else String c EmptyString
      | r => String c r
      end
  end.

(** [s.strip()] *)
Definition strip (s : string) : string := rstrip (lstrip s).

(** [s[:n]] for [n >= 0] *)
Fixpoint str_take (n : nat) (s : string) : string :=
  match n, s with
  | S n', String c s' => String c (str_take n' s')
  | _, _ => EmptyString
  end.

(** ** Truncation (lines 306-320) *)

Lemma removelast_length {A : Type} (l : list A) :
  length (removelast l) = pred (length l).
Proof.
  induction l as [|x [|y l] IH]; [reflexivity | reflexivity |].
  change (S (length (removelast (y :: l))) = S (length l)).
  rewrite IH. reflexivity.
Qed.

Lemma pop_length {A : Type} (l l' : list A) :
  pop l = Ok l' -> (length l' < length l)%nat.
Proof.
  destruct l as [|x l]; [discriminate|].
  unfold pop. intros [= <-].
  change (length (removelast (x :: l)) < length (x :: l))%nat.
  rewrite removelast_length. simpl. lia.
Qed.

(** Keeps the equation between a scrutinee and its value in a [with]. *)
Definition inspect {A : Type} (a : A) : {b : A | a = b} := exist _ a eq_refl.

Equations? _truncate_seq_pair (tokens_a tokens_b : list string) (max_length : Z)
  : result (list string * list string)
  by wf (length tokens_a + length tokens_b)%nat lt :=
_truncate_seq_pair tokens_a tokens_b max_length
  with inspect (len tokens_a + len tokens_b <=? max_length) := {
  | exist _ true _ => Ok (tokens_a, tokens_b)
  | exist _ false _ with inspect (len tokens_b <? len tokens_a) := {
    | exist _ true _ with inspect (pop tokens_a) := {
      | exist _ (Ok tokens_a') Hpop =>
          _truncate_seq_pair tokens_a' tokens_b max_length
      | exist _ (Raise e) _ => Raise e }
    | exist _ false _ with inspect (pop tokens_b) := {
      | exist _ (Ok tokens_b') Hpop =>
          _truncate_seq_pair tokens_a tokens_b' max_length
      | exist _ (Raise e) _ => Raise e } } }.
Proof.
  - apply pop_length in Hpop. lia.
  - apply pop_length in Hpop. lia.
Qed.

Example truncate_ex1 :
  _truncate_seq_pair ["a"; "b"; "c"] ["x"; "y"] 3 = Ok (["a"; "b"], ["x"]).
Proof. vm_compute. reflexivity. Qed.

(** The loop body, one iteration unrolled. *)
Lemma truncate_seq_pair_unfold (tokens_a tokens_b : list string) (max_length : Z) :
  _truncate_seq_pair tokens_a tokens_b max_length =
  if len tokens_a + len tokens_b <=? max_length then Ok (tokens_a, tokens_b)
  else if len tokens_b <? len tokens_a
       then tokens_a' ← pop tokens_a;
            _truncate_seq_pair tokens_a' tokens_b max_length
       else tokens_b' ← pop tokens_b;
            _truncate_seq_pair tokens_a tokens_b' max_length.
Proof.
  funelim (_truncate_seq_pair tokens_a tokens_b max_length);
    repeat match goal with
           | E : (_ <=? _) = _ |- _ => rewrite E
           | E : (_ <? _) = _ |- _ => rewrite E
           | E : pop _ = _ |- _ => rewrite E
           end; reflexivity.
Qed.

Lemma pop_inv {A : Type} (l l' : list A) :
  pop l = Ok l' -> exists x, l = l' ++ [x].
Proof.
  destruct l as [|y l]; [discriminate|].
  unfold pop. intros [= <-].
  exists (List.last (y :: l) y).
  apply app_removelast_last. discriminate.
Qed.

Lemma pop_snoc {A : Type} (l : list A) (x : A) : pop (l ++ [x]) = Ok l.
Proof.
  unfold pop. destruct (l ++ [x]) eqn:E.
  - destruct l; discriminate.
  - rewrite <- E, removelast_last. reflexivity.
Qed.

Lemma pop_nil_inv {A : Type} (l : list A) (e : exn) :
  pop l = Raise e -> l = [] /\ e = IndexError.
Proof. destruct l; [intros [= <-]; auto | discriminate]. Qed.

Lemma len_app {A : Type} (l k : list A) : len (l ++ k) = len l + len k.
Proof. unfold len. rewrite length_app. lia. Qed.

Lemma len_nonneg {A : Type} (l : list A) : 0 <= len l.
Proof. unfold len. lia. Qed.

Lemma len_nil_inv {A : Type} (l : list A) : len l <= 0 -> l = [].
Proof. destruct l; [reflexivity | unfold len; simpl; lia]. Qed.

(** The single-sentence branch of lines 231-234. *)
Definition truncate_single (tokens_a : list string) (seq_length : Z)
  : list string :=
  if len tokens_a >? seq_length - 2 then slice_to tokens_a (seq_length - 2)
  else tokens_a.

(** ** The truncation policy in the words of the specification

    One step removes the last token of the longer sequence, of [tokens_b] on
    a tie, and is taken while the lengths exceed the budget; the result is
    the state in which no step is due. *)
Module Reference.

Inductive pair_step (budget : Z)
  : list string * list string -> list string * list string -> Prop :=
  | pair_step_a (a b : list string) (x : string) :
      len (a ++ [x]) + len b > budget ->
      len (a ++ [x]) > len b ->
      pair_step budget (a ++ [x], b) (a, b)
  | pair_step_b (a b : list string) (x : string) :
      len a + len (b ++ [x]) > budget ->
      len a <= len (b ++ [x]) ->
      pair_step budget (a, b ++ [x]) (a, b).

Definition pair_result (budget : Z) (s s' : list string * list string)
  : Prop :=
  rtc (pair_step budget) s s' /\ len (fst s') + len (snd s') <= budget.

Inductive single_step (budget : Z) : list string -> list string -> Prop :=
  | single_step_a (a : list string) (x : string) :
      len (a ++ [x]) > budget ->
      single_step budget (a ++ [x]) a.

Definition single_result (budget : Z) (a a' : list string) : Prop :=
  rtc (single_step budget) a a' /\ len a' <= budget.

End Reference.

Section TruncationFacts.
Import Reference.

Lemma truncate_seq_pair_sound (n : nat) :
  forall (a b : list string) (m : Z) (a' b' : list string),
    (length a + length b < n)%nat ->
    _truncate_seq_pair a b m = Ok (a', b') ->
    pair_result m (a, b) (a', b').
Proof.
  induction n as [|n IH]; intros a b m a' b' Hn; [lia|].
  rewrite truncate_seq_pair_unfold.
  destruct (len a + len b <=? m) eqn:Hle.
  - intros [= <- <-]. split; [constructor | simpl; lia].
  - destruct (len b <? len a) eqn:Hlt.
    + destruct (pop a) as [a0|e] eqn:Hpop; [|discriminate].
      simpl. intros Hrec.
      assert (Hlen := pop_length _ _ Hpop).
      destruct (pop_inv _ _ Hpop) as [x ->].
      apply IH in Hrec; [|lia].
      destruct Hrec as [Hsteps Hfin]. split; [|exact Hfin].
      eapply rtc_l; [|exact Hsteps].
      constructor; lia.
    + destruct (pop b) as [b0|e] eqn:Hpop; [|discriminate].
      simpl. intros Hrec.
      assert (Hlen := pop_length _ _ Hpop).
      destruct (pop_inv _ _ Hpop) as [x ->].
      apply IH in Hrec; [|lia].
      destruct Hrec as [Hsteps Hfin]. split; [|exact Hfin].
      eapply rtc_l; [|exact Hsteps].
      constructor; lia.
Qed.

Lemma truncate_seq_pair_complete (m : Z) (s s' : list string * list string) :
  rtc (pair_step m) s s' ->
  len (fst s') + len (snd s') <= m ->
  _truncate_seq_pair (fst s) (snd s) m = Ok s'.
Proof.
  induction 1 as [[a b]|s1 s2 s3 Hstep Hrest IH]; intros Hfin.
  - simpl in *. rewrite truncate_seq_pair_unfold.
    replace (len a + len b <=? m) with true by lia. reflexivity.
  - specialize (IH Hfin). destruct Hstep as [a b x H1 H2|a b x H1 H2];
      simpl in *; rewrite truncate_seq_pair_unfold.
    + replace (len (a ++ [x]) + len b <=? m) with false by lia.
      replace (len b <? len (a ++ [x])) with true by lia.
      rewrite pop_snoc. exact IH.
    + replace (len a + len (b ++ [x]) <=? m) with false by lia.
      replace (len (b ++ [x]) <? len a) with false by lia.
      rewrite pop_snoc. exact IH.
Qed.

(** A budget that is not negative is always reached. *)
Lemma truncate_seq_pair_total (n : nat) :
  forall (a b : list string) (m : Z),
    (length a + length b < n)%nat -> 0 <= m ->
    exists a' b', _truncate_seq_pair a b m = Ok (a', b').
Proof.
  induction n as [|n IH]; intros a b m Hn Hm; [lia|].
  rewrite truncate_seq_pair_unfold.
  destruct (Z.leb_spec (len a + len b) m) as [Hle|Hle]; [eauto|].
  pose proof (len_nonneg a). pose proof (len_nonneg b).
  destruct (Z.ltb_spec (len b) (len a)) as [Hlt|Hlt].
  - destruct (pop a) as [a0|e] eqn:Hpop.
    + simpl. apply IH; [|exact Hm]. apply pop_length in Hpop. lia.
    + apply pop_nil_inv in Hpop as [-> _]. change (len (@nil string)) with 0 in *. lia.
  - destruct (pop b) as [b0|e] eqn:Hpop.
    + simpl. apply IH; [|exact Hm]. apply pop_length in Hpop. lia.
    + apply pop_nil_inv in Hpop as [-> _].
      change (len (@nil string)) with 0 in *. lia.
Qed.

(** A negative budget is never reached: the loop pops both lists empty
    and then pops the empty [tokens_b]. *)
Lemma truncate_seq_pair_negative (n : nat) :
  forall (a b : list string) (m : Z),
    (length a + length b < n)%nat -> m < 0 ->
    _truncate_seq_pair a b m = Raise IndexError.
Proof.
  induction n as [|n IH]; intros a b m Hn Hm; [lia|].
  rewrite truncate_seq_pair_unfold.
  pose proof (len_nonneg a). pose proof (len_nonneg b).
  replace (len a + len b <=? m) with false by lia.
  destruct (len b <? len a) eqn:Hlt.
  - destruct (pop a) as [a0|e] eqn:Hpop.
    + simpl. apply IH; [|exact Hm]. apply pop_length in Hpop. lia.
    + apply pop_nil_inv in Hpop as [_ ->]. reflexivity.
  - destruct (pop b) as [b0|e] eqn:Hpop.
    + simpl. apply IH; [|exact Hm]. apply pop_length in Hpop. lia.
    + apply pop_nil_inv in Hpop as [_ ->]. reflexivity.
Qed.

Lemma single_steps_take (m : Z) (k : nat) (a : list string) :
  m <= Z.of_nat k -> rtc (single_step m) a (take k a).
Proof.
  intros Hk. induction a as [|x a IH] using rev_ind.
  - rewrite take_nil. constructor.
  - destruct (le_lt_dec (length (a ++ [x])) k) as [Hge|Hlt].
    + rewrite take_ge by exact Hge. constructor.
    + rewrite length_app in Hlt. simpl in Hlt.
      rewrite take_app_le by lia.
      eapply rtc_l; [|exact IH].
      constructor. rewrite len_app. unfold len. simpl. lia.
Qed.

Lemma single_steps_inv (m : Z) (a a' : list string) :
  rtc (single_step m) a a' ->
  a' = a \/ (m <= len a' /\ a' = take (length a') a).
Proof.
  induction 1 as [a|a a1 a' Hstep Hrest IH]; [left; reflexivity|].
  right. destruct Hstep as [a1 x Hgt].
  rewrite len_app in Hgt. change (len [x]) with 1 in Hgt.
  destruct IH as [->|[Hm Htake]].
  - split; [lia|]. rewrite take_app_length. reflexivity.
  - split; [exact Hm|].
    rewrite take_app_le; [exact Htake|].
    rewrite Htake, length_take. lia.
Qed.

Lemma truncate_single_reference (a a' : list string) (seq_length : Z) :
  2 <= seq_length ->
  single_result (seq_length - 2) a a' <-> a' = truncate_single a seq_length.
Proof.
  intros Hsl. unfold truncate_single, slice_to, single_result.
  replace (seq_length - 2 <? 0) with false by lia.
  destruct (Z.gtb_spec (len a) (seq_length - 2)) as [Hgt|Hle]; split.
  - intros [Hsteps Hfin].
    apply single_steps_inv in Hsteps as [->|[Hm Htake]]; [lia|].
    rewrite Htake. f_equal. unfold len in *. lia.
  - intros ->. split.
    + apply single_steps_take. lia.
    + unfold len in *. rewrite length_take. lia.
  - intros [Hsteps Hfin].
    apply single_steps_inv in Hsteps as [->|[Hm Htake]]; [reflexivity|].
    rewrite Htake. apply take_ge. unfold len in *. lia.
  - intros ->. split; [constructor | exact Hle].
Qed.

End TruncationFacts.

(** ** Examples and features (lines 87-103) *)

Record InputExample : Set := mkInputExample {
  unique_id : Z;
  text_a : string;
  text_b : option string
}.

Record InputFeatures : Set := mkInputFeatures {
  feature_unique_id : Z;
  tokens : list string;
  input_ids : list Z;
  input_mask : list Z;
  input_type_ids : list Z
}.

(** The zero-padding loop of lines 278-281, [n] iterations. *)
Fixpoint zero_pad (n : nat) (st : list Z * list Z * list Z)
  : list Z * list Z * list Z :=
  match n with
  | O => st
  | S n' =>
      let '(ids, mask, type_ids) := st in
      zero_pad n' (ids ++ [0], mask ++ [0], type_ids ++ [0])
  end.

(** ** Reading the input (lines 323-344) *)

(** [reader.readline()]: the next line with its line feed, and the rest of
    the file; the empty string at the end of the file. *)
Fixpoint readline (reader : string) : string * string :=
  match reader with
  | EmptyString => (EmptyString, EmptyString)
  | String c rest =>
      if Ascii.eqb c "010"%char then (String c EmptyString, rest)
      else let '(line, rest') := readline rest in (String c line, rest')
  end.

Fixpoint str_drop (n : nat) (s : string) : string :=
  match n, s with
  | S n', String _ s' => str_drop n' s'
  | _, _ => s
  end.

(** The regular expression of line 335 (anything, the separator of a space,
    three bars and a space, anything) on a line without line feed: the first
    group is greedy, so the line is cut at the last separator. *)
Fixpoint match_pair (line : string) : option (string * string) :=
  match line with
  | EmptyString => None
  | String c line' =>
      match match_pair line' with
      | Some (g1, g2) => Some (String c g1, g2)
      | None =>
          if String.prefix " ||| " line then Some (EmptyString, str_drop 5 line)
          else None
      end
  end.

Lemma readline_length (reader line rest : string) (c : ascii) :
  readline reader = (String c line, rest) ->
  (String.length rest < String.length reader)%nat.
Proof.
  revert line rest c.
  induction reader as [|d reader IH]; intros line rest c; simpl.
  - discriminate.
  - destruct (Ascii.eqb d "010"%char).
    + intros [= _ _ <-]. lia.
    + destruct (readline reader) as [l r] eqn:E. intros [= _ <- <-].
      destruct l as [|c' l'].
      * destruct reader; simpl in *; [injection E as <-; simpl; lia|].
        destruct (Ascii.eqb a "010"%char); [discriminate|].
        destruct (readline reader); discriminate.
      * specialize (IH _ _ _ eq_refl). lia.
  Qed.

Equations? read_loop (reader : string) (unique_id : Z)
  (examples : list InputExample) : list InputExample
  by wf (String.length reader) lt :=
read_loop reader unique_id examples with inspect (readline reader) := {
  | exist _ (EmptyString, _) _ => examples
  | exist _ (String c l, rest) Hread =>
      let line := strip (String c l) in
      let example :=
        match match_pair line with
        | None => mkInputExample unique_id line None
        | Some (g1, g2) => mkInputExample unique_id g1 (Some g2)
        end in
      read_loop rest (unique_id + 1) (examples ++ [example]) }.
Proof. eapply readline_length. exact Hread. Qed.

Definition read_examples (input_file : string) : list InputExample :=
  read_loop input_file 0 [].

Example read_examples_ex :
  read_examples ("New York ||| big city" ++ String "010" "  a b ") =
  [mkInputExample 0 "New York" (Some "big city"); mkInputExample 1 "a b" None].
Proof. vm_compute. reflexivity. Qed.

(** ** The alignment record of one example (the dict built at lines 404-431) *)

Record token_info : Type := mkTokenInfo {
  original_tokens : list string;
  original_to_bert : gset Z;
  bert_tokens : list string;
  original_tokens2 : option (list string);
  original_to_bert2 : option (gset Z)
}.

(** [sorted(list(s))] *)
Definition sorted_ids (s : gset Z) : list Z := merge_sort Z.le (elements s).

(** What the check of lines 438-448 did with one feature. *)
Inductive validation : Set :=
  | Skipped    (* the [continue] of line 442 *)
  | Checked.   (* all three assertions passed *)

(** [str(n)] *)
Definition str (n : Z) : string := pretty n.

Section Tokenizer.

(** The tokenizer is an external collaborator: [tokenize] is
    [tokenizer.tokenize], and [convert_tokens_to_ids] looks every token up
    in the vocabulary [vocab]. *)
Variable tokenize : string -> list string.
Variable vocab : string -> Z.

Definition convert_tokens_to_ids (tokens : list string) : list Z :=
  map vocab tokens.

(** *** The sequence builder (lines 211-303), one example *)

(** Lines 217-224: [text_a] word by word, [text_b] as a whole and only when
    it is a non-empty string. *)
Definition tokenize_example (example : InputExample)
  : list string * option (list string) :=
  let tokens_a := flat_map tokenize (split_space (text_a example)) in
  let tokens_b :=
    match text_b example with
    | Some (String _ _ as t) => Some (tokenize t)
    | _ => None
    end in
  (tokens_a, tokens_b).

(** Lines 226-234.  [_truncate_seq_pair] changes both lists in place, so the
    caller goes on with the truncated ones. *)
Definition truncate_tokens (seq_length : Z) (tokens_a : list string)
  (tokens_b : option (list string))
  : result (list string * option (list string)) :=
  match tokens_b with
  | Some ((_ :: _) as tb) =>
      '(ta', tb') ← _truncate_seq_pair tokens_a tb (seq_length - 3);
      Ok (ta', Some tb')
  | _ => Ok (truncate_single tokens_a seq_length, tokens_b)
  end.

(** Lines 254-269: the delimited sequence and its type ids. *)
Definition build_tokens (tokens_a : list string)
  (tokens_b : option (list string)) : list string * list Z :=
  let tokens := ["[CLS]"] ++ tokens_a ++ ["[SEP]"] in
  let input_type_ids := [0] ++ map (fun _ => 0) tokens_a ++ [0] in
  match tokens_b with
  | Some ((_ :: _) as tb) =>
      (tokens ++ tb ++ ["[SEP]"],
       input_type_ids ++ map (fun _ => 1) tb ++ [1])
  | _ => (tokens, input_type_ids)
  end.

(** Lines 271-302: ids, mask, padding and the three assertions. *)
Definition pad_features (seq_length : Z) (unique_id : Z)
  (tokens : list string) (input_type_ids : list Z) : result InputFeatures :=
  let input_ids := convert_tokens_to_ids tokens in
  let input_mask := map (fun _ => 1) input_ids in
  let '(input_ids, input_mask, input_type_ids) :=
    zero_pad (Z.to_nat (seq_length - len input_ids))
             (input_ids, input_mask, input_type_ids) in
  py_assert (len input_ids =? seq_length) AssertLenInputIds;;
  py_assert (len input_mask =? seq_length) AssertLenInputMask;;
  py_assert (len input_type_ids =? seq_length) AssertLenInputTypeIds;;
  Ok (mkInputFeatures unique_id tokens input_ids input_mask input_type_ids).

Definition convert_example (seq_length : Z) (example : InputExample)
  : result InputFeatures :=
  let '(tokens_a, tokens_b) := tokenize_example example in
  '(tokens_a, tokens_b) ← truncate_tokens seq_length tokens_a tokens_b;
  let '(tokens, input_type_ids) := build_tokens tokens_a tokens_b in
  pad_features seq_length (unique_id example) tokens input_type_ids.

Definition convert_examples_to_features (examples : list InputExample)
  (seq_length : Z) : result (list InputFeatures) :=
  mapM_result (convert_example seq_length) examples.

(** *** The alignment tracker (lines 384-431) *)

(** One iteration of the loops of lines 390-396 and 414-420, on the state
    [(bert_tokens, original_to_bert, tokens_to_remove)]. *)
Definition track_step (st : list string * list Z * list string)
  (orig_token : string) : list string * list Z * list string :=
  let '(bert_tokens, original_to_bert, tokens_to_remove) := st in
  let bt := tokenize orig_token in
  if len bt =? 0 then
    (bert_tokens, original_to_bert, tokens_to_remove ++ [orig_token])
  else
    (bert_tokens ++ bt, original_to_bert ++ [len bert_tokens],
     tokens_to_remove).

(** Lines 397-400 and 421-424. *)
Definition remove_tokens (original_tokens tokens_to_remove : list string)
  : list string :=
  if len tokens_to_remove >? 0 then
    let tm : gset string := list_to_set tokens_to_remove in
    filter (fun token => token ∉ tm) original_tokens
  else original_tokens.

(** One sentence, from the tokens accumulated so far.  The source writes
    these lines twice, for [text_a] after the opening marker and for
    [text_b] after the first sentence; the two copies differ in the initial
    [bert_tokens] and in the assertion's line only. *)
Definition track_sentence (text : string) (bert_tokens : list string)
  (site : assert_site) : result (list string * list Z * list string) :=
  let original_tokens := split (strip text) in
  let '(bert_tokens, original_to_bert, tokens_to_remove) :=
    fold_left track_step original_tokens (bert_tokens, [], []) in
  let original_tokens := remove_tokens original_tokens tokens_to_remove in
  let bert_tokens := bert_tokens ++ ["[SEP]"] in
  py_assert (len original_to_bert =? len original_tokens) site;;
  Ok (original_tokens, original_to_bert, bert_tokens).

(** The list [bert_tokens] stored at line 407 is the object the second
    sentence extends in place, so the record holds the extended list. *)
Definition track_example (example : InputExample) : result token_info :=
  '(words, starts, bert) ←
    track_sentence (text_a example) ["[CLS]"] AssertTrackerLen;
  match text_b example with
  | None => Ok (mkTokenInfo words (list_to_set starts) bert None None)
  | Some text =>
      '(words2, starts2, bert2) ←
        track_sentence text bert AssertTrackerLen2;
      Ok (mkTokenInfo words (list_to_set starts) bert2
                      (Some words2) (Some (list_to_set starts2)))
  end.

Fixpoint track_examples (examples : list InputExample)
  (unique_id_to_token_info : gmap Z token_info)
  : result (gmap Z token_info) :=
  match examples with
  | [] => Ok unique_id_to_token_info
  | example :: examples' =>
      info ← track_example example;
      track_examples examples'
        (<[unique_id example := info]> unique_id_to_token_info)
  end.

(** *** The alignment validator (lines 436-448) *)

Definition check_feature (unique_info : token_info)
  (feature : InputFeatures) : result validation :=
  match original_tokens2 unique_info with
  | Some _ => Ok Skipped
  | None =>
      py_assert (bool_decide (bert_tokens unique_info = tokens feature))
                AssertTokensEqual;;
      bert_orig_tokens ←
        mapM_result (getitem (tokens feature))
                    (sorted_ids (original_to_bert unique_info));
      let orig_tokens := original_tokens unique_info in
      py_assert (len bert_orig_tokens =? len orig_tokens)
                AssertCountEqual;;
      py_assert
        (bool_decide
           (zip_with (fun bt tok => str_take (String.length bt) tok)
                     bert_orig_tokens orig_tokens = bert_orig_tokens))
        AssertPrefixEqual;;
      Ok Checked
  end.

Definition lookup_info (unique_id_to_token_info : gmap Z token_info)
  (unique_id : Z) : result token_info :=
  match unique_id_to_token_info !! unique_id with
  | Some info => Ok info
  | None => Raise KeyError
  end.

Definition check_features (unique_id_to_token_info : gmap Z token_info)
  (features : list InputFeatures) : result (list validation) :=
  mapM_result
    (fun feature =>
       unique_info ←
         lookup_info unique_id_to_token_info (feature_unique_id feature);
       check_feature unique_info feature)
    features.

(** *** Gathered features and feature-store keys (lines 521-565) *)

(** Lines 521-552, for one result of the encoder: one feature array per
    index set, of as many rows as the set has indices, and [ValueError] when
    that differs from the number of words.  The rows themselves are the
    encoder's and are left out. *)
Definition all_features_to_write (unique_info : token_info)
  : result (list Z) :=
  let all_ids :=
    [sorted_ids (original_to_bert unique_info)] ++
    match original_to_bert2 unique_info with
    | Some ids2 => [sorted_ids ids2]
    | None => []
    end in
  let all_words :=
    [Some (original_tokens unique_info); original_tokens2 unique_info] in
  mapM_result
    (fun '(ids_to_select, words) =>
       let n_tokens := len ids_to_select in
       match words with
       | None => Raise KeyError
       | Some words =>
           if negb (len words =? n_tokens) then Raise ValueError
           else Ok n_tokens
       end)
    (zip all_ids all_words).

(** Lines 554-565: the names under which the datasets of one result are
    created; [all_features_to_write] has two entries exactly when the record
    has [original_to_bert2]. *)
Definition dataset_keys (unique_info : token_info) (unique_id : Z)
  : list string :=
  match original_to_bert2 unique_info with
  | None => [str unique_id]
  | Some _ => [str (2 * unique_id); str (2 * unique_id + 1)]
  end.

(** The run in word-alignment mode ([do_tokens_only], the default) up to
    the names of the datasets it creates, in the order of creation; the
    encoder returns one result per feature, in the order of the features. *)
Definition main_keys (input_file : string) (max_seq_length : Z)
  : result (list string) :=
  let examples := read_examples input_file in
  unique_id_to_token_info ← track_examples examples ∅;
  features ← convert_examples_to_features examples max_seq_length;
  check_features unique_id_to_token_info features;;
  keys ← mapM_result
           (fun feature =>
              let unique_id := feature_unique_id feature in
              unique_info ← lookup_info unique_id_to_token_info unique_id;
              all_features_to_write unique_info;;
              Ok (dataset_keys unique_info unique_id))
           features;
  Ok (concat keys).

End Tokenizer.

(** ** Two tokenizers for the worked examples *)

(** Every whitespace-separated word is one token, unchanged. *)
Definition word_tokenize (text : string) : list string := split text.

Definition lower_char (c : ascii) : ascii :=
  let n := nat_of_ascii c in
  if ((65 <=? n) && (n <=? 90))%nat then ascii_of_nat (n + 32) else c.

Fixpoint lower (s : string) : string :=
  match s with
  | EmptyString => EmptyString
  | String c s' => String (lower_char c) (lower s')
  end.

(** As [word_tokenize], lower-cased: an uncased model. *)
Definition uncased_tokenize (text : string) : list string :=
  map lower (split text).

(** The control characters below 256, as the BERT basic tokenizer sees them:
    tab, line feed and carriage return are whitespace instead. *)
Definition is_control (c : ascii) : bool :=
  let n := nat_of_ascii c in
  (if (n =? 9) || (n =? 10) || (n =? 13) then false
   else (n <? 32) || (127 <=? n) && (n <=? 159) || (n =? 173))%nat.

Fixpoint clean_text (s : string) : string :=
  match s with
  | EmptyString => EmptyString
  | String c s' =>
      if is_control c then clean_text s' else String c (clean_text s')
  end.

(** As [word_tokenize], after control characters are dropped. *)
Definition clean_tokenize (text : string) : list string :=
  split (clean_text text).

Definition no_vocab (token : string) : Z := 1.

(** The prefix test in the words of the specification: the sub-token is
    compared with the lower-cased word when the tokenizer lower-cases. *)
Definition case_appropriate_prefix (do_lower_case : bool)
  (sub_token word : string) : bool :=
  String.prefix sub_token (if do_lower_case then lower word else word).

Example convert_pair_ex :
  map tokens <$> convert_examples_to_features word_tokenize no_vocab
    (read_examples "New York ||| big city") 10
  = Ok [["[CLS]"; "New"; "York"; "[SEP]"; "big"; "city"; "[SEP]"]].
Proof. vm_compute. reflexivity. Qed.

(** * Properties *)

(** ** The monad and the list primitives *)

Lemma mapM_result_Forall2 {A B : Type} (f : A -> result B)
  (l : list A) (l' : list B) :
  mapM_result f l = Ok l' <-> Forall2 (fun x y => f x = Ok y) l l'.
Proof.
  revert l'. induction l as [|x l IH]; intros l'; simpl.
  - split.
    + intros [= <-]. constructor.
    + intros H. inversion H. reflexivity.
  - split.
    + destruct (f x) as [y|e] eqn:Hx; [|discriminate]. simpl.
      destruct (mapM_result f l) as [ys|e] eqn:Hl; [|discriminate]. simpl.
      intros [= <-]. constructor; [exact Hx | apply IH; reflexivity].
    + intros H. inversion H as [|x0 y l0 ys Hx Hrest]; subst.
      rewrite Hx. simpl. apply IH in Hrest. rewrite Hrest. reflexivity.
Qed.

Lemma mapM_result_raise {A B : Type} (f : A -> result B) (l : list A)
  (x : A) (e : exn) :
  In x l -> f x = Raise e -> exists e', mapM_result f l = Raise e'.
Proof.
  induction l as [|y l IH]; simpl; [tauto|].
  intros [->|Hin] Hx.
  - rewrite Hx. eauto.
  - destruct (f y); [|eauto]. simpl.
    destruct (IH Hin Hx) as [e' ->]. eauto.
Qed.

Lemma len_cons {A : Type} (x : A) (l : list A) : len (x :: l) = 1 + len l.
Proof. unfold len. simpl. lia. Qed.

Lemma len_map {A B : Type} (f : A -> B) (l : list A) : len (map f l) = len l.
Proof. unfold len. rewrite length_map. reflexivity. Qed.

Lemma len_repeat {A : Type} (x : A) (n : nat) : len (repeat x n) = Z.of_nat n.
Proof. unfold len. rewrite repeat_length. reflexivity. Qed.

Lemma zero_pad_spec (n : nat) (ids mask type_ids : list Z) :
  zero_pad n (ids, mask, type_ids) =
  (ids ++ repeat 0 n, mask ++ repeat 0 n, type_ids ++ repeat 0 n).
Proof.
  revert ids mask type_ids. induction n as [|n IH]; intros; simpl.
  - rewrite !app_nil_r. reflexivity.
  - rewrite IH, <- !app_assoc. reflexivity.
Qed.

Ltac len_norm :=
  repeat first [rewrite len_app | rewrite len_cons | rewrite len_map
               | rewrite len_repeat];
  change (len (@nil string)) with 0; change (len (@nil Z)) with 0.

(** [sum(l)] *)
Definition sum (l : list Z) : Z := fold_right Z.add 0 l.

Lemma sum_cons (x : Z) (l : list Z) : sum (x :: l) = x + sum l.
Proof. reflexivity. Qed.

Lemma sum_app (l k : list Z) : sum (l ++ k) = sum l + sum k.
Proof. induction l as [|x l IH]; simpl; [reflexivity | rewrite IH; lia]. Qed.

Lemma sum_repeat_0 (n : nat) : sum (repeat 0 n) = 0.
Proof. induction n as [|n IH]; simpl; [reflexivity | exact IH]. Qed.

Lemma sum_map_1 {A : Type} (l : list A) : sum (map (fun _ => 1) l) = len l.
Proof.
  induction l as [|x l IH]; [reflexivity|].
  rewrite len_cons. simpl. rewrite IH. reflexivity.
Qed.

Section BuilderFacts.

Variable tokenize : string -> list string.
Variable vocab : string -> Z.

Lemma pad_features_inv (seq_length uid : Z) (toks : list string)
  (type_ids : list Z) (f : InputFeatures) :
  pad_features vocab seq_length uid toks type_ids = Ok f ->
  len (input_ids f) = seq_length /\ len (input_mask f) = seq_length /\
  len (input_type_ids f) = seq_length /\
  tokens f = toks /\ feature_unique_id f = uid.
Proof.
  unfold pad_features. rewrite zero_pad_spec. unfold py_assert.
  destruct (Z.eqb_spec (len (convert_tokens_to_ids vocab toks ++
    repeat 0 (Z.to_nat (seq_length - len (convert_tokens_to_ids vocab toks)))))
    seq_length) as [H1|]; [|discriminate]. simpl.
  destruct (Z.eqb_spec (len (map (fun _ : Z => 1) (convert_tokens_to_ids vocab toks)
    ++ repeat 0 (Z.to_nat (seq_length - len (convert_tokens_to_ids vocab toks)))))
    seq_length) as [H2|]; [|discriminate]. simpl.
  destruct (Z.eqb_spec (len (type_ids ++
    repeat 0 (Z.to_nat (seq_length - len (convert_tokens_to_ids vocab toks)))))
    seq_length) as [H3|]; [|discriminate]. simpl.
  intros [= <-]. simpl. auto.
Qed.

Lemma pad_features_ok (seq_length uid : Z) (toks : list string)
  (type_ids : list Z) :
  len toks <= seq_length -> len type_ids = len toks ->
  let n := Z.to_nat (seq_length - len toks) in
  pad_features vocab seq_length uid toks type_ids =
  Ok (mkInputFeatures uid toks
        (map vocab toks ++ repeat 0 n)
        (map (fun _ => 1) (map vocab toks) ++ repeat 0 n)
        (type_ids ++ repeat 0 n)).
Proof.
  intros Hle Hty n. unfold pad_features, convert_tokens_to_ids.
  rewrite zero_pad_spec, len_map. fold n. unfold py_assert.
  rewrite !len_app, !len_map, len_repeat, Hty.
  replace (len toks + Z.of_nat n =? seq_length) with true by lia.
  reflexivity.
Qed.

Lemma pad_features_long (seq_length uid : Z) (toks : list string)
  (type_ids : list Z) :
  seq_length < len toks ->
  pad_features vocab seq_length uid toks type_ids =
  Raise (AssertionError AssertLenInputIds).
Proof.
  intros Hlt. unfold pad_features, convert_tokens_to_ids.
  rewrite zero_pad_spec, len_map. unfold py_assert.
  assert (Z.to_nat (seq_length - len toks) = 0%nat) as -> by lia.
  rewrite !len_app, !len_map, len_repeat.
  change (Z.of_nat 0) with 0. rewrite !Z.add_0_r.
  replace (len toks =? seq_length) with false by lia.
  reflexivity.
Qed.

Lemma build_tokens_len (a : list string) (b : option (list string)) :
  len (snd (build_tokens a b)) = len (fst (build_tokens a b)).
Proof.
  unfold build_tokens. destruct b as [[|x b]|]; simpl fst; simpl snd;
    repeat (rewrite ?len_app, ?len_map, ?len_cons); reflexivity.
Qed.

Lemma truncate_single_len (a : list string) (seq_length : Z) :
  2 <= seq_length -> len (truncate_single a seq_length) <= seq_length - 2.
Proof.
  intros H. unfold truncate_single, slice_to.
  replace (seq_length - 2 <? 0) with false by lia.
  destruct (Z.gtb_spec (len a) (seq_length - 2)); [|lia].
  unfold len in *. rewrite length_take. lia.
Qed.

Lemma truncate_tokens_ok (seq_length : Z) (a : list string)
  (b : option (list string)) :
  3 <= seq_length ->
  exists a' b', truncate_tokens seq_length a b = Ok (a', b') /\
                len (fst (build_tokens a' b')) <= seq_length.
Proof.
  intros Hsl. unfold truncate_tokens.
  assert (Hsingle : forall b0 : option (list string),
    (b0 = None \/ b0 = Some []) ->
    len (fst (build_tokens (truncate_single a seq_length) b0)) <= seq_length).
  { intros b0 Hb0. pose proof (truncate_single_len a seq_length ltac:(lia)).
    destruct Hb0 as [->| ->]; unfold build_tokens; simpl fst;
      rewrite ?len_app, ?len_cons, ?len_app, ?len_cons;
      change (len (@nil string)) with 0; lia. }
  destruct b as [[|x b]|];
    [eexists _, _; split; [reflexivity | apply Hsingle; auto] |
     | eexists _, _; split; [reflexivity | apply Hsingle; auto]].
  destruct (truncate_seq_pair_total (S (length a + length (x :: b))) a (x :: b)
              (seq_length - 3) ltac:(lia) ltac:(lia)) as (a' & b' & Heq).
  rewrite Heq. simpl. exists a', (Some b'). split; [reflexivity|].
  apply (truncate_seq_pair_sound _ _ _ _ _ _ (Nat.lt_succ_diag_r _)) in Heq.
  destruct Heq as [_ Hfin]. simpl in Hfin.
  unfold build_tokens. destruct b' as [|y b']; simpl fst;
    repeat (rewrite ?len_app, ?len_cons);
    change (len (@nil string)) with 0 in *;
    rewrite ?len_cons in Hfin; lia.
Qed.

Lemma convert_example_inv (seq_length : Z) (example : InputExample)
  (f : InputFeatures) :
  convert_example tokenize vocab seq_length example = Ok f ->
  len (input_ids f) = seq_length /\ len (input_mask f) = seq_length /\
  len (input_type_ids f) = seq_length.
Proof.
  unfold convert_example.
  destruct (tokenize_example tokenize example) as [a b].
  destruct (truncate_tokens seq_length a b) as [[a' b']|e]; [|discriminate].
  simpl. destruct (build_tokens a' b') as [toks tys].
  intros H. apply pad_features_inv in H. tauto.
Qed.

Lemma convert_example_ok (seq_length : Z) (example : InputExample) :
  3 <= seq_length ->
  exists f, convert_example tokenize vocab seq_length example = Ok f.
Proof.
  intros Hsl. unfold convert_example.
  destruct (tokenize_example tokenize example) as [a b].
  destruct (truncate_tokens_ok seq_length a b Hsl) as (a' & b' & -> & Hlen).
  simpl. pose proof (build_tokens_len a' b') as Hty.
  destruct (build_tokens a' b') as [toks tys]. simpl in *.
  rewrite pad_features_ok by assumption. eauto.
Qed.

End BuilderFacts.

Section BuilderCases.

Variable tokenize : string -> list string.
Variable vocab : string -> Z.

(** A single sentence that fits is encoded without truncation. *)
Lemma convert_example_single_fits (seq_length : Z) (example : InputExample) :
  text_b example = None ->
  let tokens_a := flat_map tokenize (split_space (text_a example)) in
  len tokens_a <= seq_length - 2 ->
  let n := Z.to_nat (seq_length - (len tokens_a + 2)) in
  convert_example tokenize vocab seq_length example =
  Ok (mkInputFeatures (unique_id example)
        (["[CLS]"] ++ tokens_a ++ ["[SEP]"])
        (map vocab (["[CLS]"] ++ tokens_a ++ ["[SEP]"]) ++ repeat 0 n)
        (map (fun _ => 1) (map vocab (["[CLS]"] ++ tokens_a ++ ["[SEP]"]))
           ++ repeat 0 n)
        (([0] ++ map (fun _ => 0) tokens_a ++ [0]) ++ repeat 0 n)).
Proof.
  intros Hb tokens_a Hfit n.
  unfold convert_example, tokenize_example. rewrite Hb. fold tokens_a.
  unfold truncate_tokens, truncate_single.
  replace (len tokens_a >? seq_length - 2) with false by lia.
  simpl mbind. unfold build_tokens.
  assert (Hlen : len (["[CLS]"] ++ tokens_a ++ ["[SEP]"]) = len tokens_a + 2).
  { rewrite !len_app, !len_cons. change (len (@nil string)) with 0. lia. }
  change (["[CLS]"] ++ tokens_a ++ ["[SEP]"])
    with ("[CLS]" :: tokens_a ++ ["[SEP]"]) in *.
  rewrite pad_features_ok.
  - rewrite Hlen. reflexivity.
  - lia.
  - rewrite Hlen, len_cons, len_app, len_map, !len_cons.
    change (len (@nil Z)) with 0. lia.
Qed.

(** Below three positions a pair with a non-empty second sentence empties
    both lists and pops the empty [tokens_b]. *)
Lemma convert_example_pair_degenerate (seq_length : Z)
  (example : InputExample) (a b : list string) (x : string) :
  tokenize_example tokenize example = (a, Some (x :: b)) ->
  seq_length < 3 ->
  convert_example tokenize vocab seq_length example = Raise IndexError.
Proof.
  intros Htok Hsl. unfold convert_example. rewrite Htok.
  unfold truncate_tokens.
  rewrite (truncate_seq_pair_negative (S (length a + length (x :: b))))
    by lia.
  reflexivity.
Qed.

(** Below two positions a single sentence keeps its two markers, which no
    longer fit: the assertion of line 283 fails. *)
Lemma convert_example_single_degenerate (seq_length : Z)
  (example : InputExample) (a : list string) (b : option (list string)) :
  tokenize_example tokenize example = (a, b) ->
  b = None \/ b = Some [] ->
  seq_length < 2 ->
  convert_example tokenize vocab seq_length example =
  Raise (AssertionError AssertLenInputIds).
Proof.
  intros Htok Hb Hsl. unfold convert_example. rewrite Htok.
  assert (Htr : truncate_tokens seq_length a b =
                Ok (truncate_single a seq_length, b))
    by (destruct Hb as [-> | ->]; reflexivity).
  rewrite Htr. simpl mbind.
  assert (Hbt : build_tokens (truncate_single a seq_length) b =
    (["[CLS]"] ++ truncate_single a seq_length ++ ["[SEP]"],
     [0] ++ map (fun _ => 0) (truncate_single a seq_length) ++ [0]))
    by (destruct Hb as [-> | ->]; reflexivity).
  rewrite Hbt. apply pad_features_long.
  rewrite !len_app, !len_cons. change (len (@nil string)) with 0.
  pose proof (len_nonneg (truncate_single a seq_length)). lia.
Qed.

End BuilderCases.

(** ** Whitespace *)

Lemma split_lstrip (s : string) : split (lstrip s) = split s.
Proof.
  induction s as [|c s IH]; [reflexivity|].
  simpl lstrip. destruct (is_space c) eqn:Hc; [|reflexivity].
  rewrite IH. simpl. rewrite Hc. reflexivity.
Qed.

Lemma rstrip_cons (c : ascii) (s : string) :
  rstrip (String c s) = EmptyString \/
  exists r, rstrip (String c s) = String c r.
Proof.
  simpl. destruct (rstrip s); [destruct (is_space c)|]; eauto.
Qed.

Lemma split_rstrip (s : string) : split (rstrip s) = split s.
Proof.
  induction s as [|c s IH]; [reflexivity|].
  change (rstrip (String c s)) with
    (match rstrip s with
     | EmptyString => if is_space c then EmptyString else String c EmptyString
     | String d r => String c (String d r)
     end).
  destruct (rstrip s) as [|d r] eqn:Hr.
  - simpl in IH. simpl. destruct (is_space c) eqn:Hc.
    + exact IH.
    + simpl. rewrite Hc, <- IH. destruct s as [|c' s']; [reflexivity|].
      destruct (is_space c'); reflexivity.
  - destruct s as [|c' s']; [discriminate|].
    destruct (rstrip_cons c' s') as [H|[r0 H]]; rewrite H in Hr;
      [discriminate|]. injection Hr as <- <-.
    change (split (String c (String c' s'))) with
      (if is_space c then split (String c' s')
       else if is_space c' then String c EmptyString :: split (String c' s')
            else match split (String c' s') with
                 | w :: ws => String c w :: ws
                 | [] => [String c EmptyString]
                 end).
    change (split (String c (String c' r0))) with
      (if is_space c then split (String c' r0)
       else if is_space c' then String c EmptyString :: split (String c' r0)
            else match split (String c' r0) with
                 | w :: ws => String c w :: ws
                 | [] => [String c EmptyString]
                 end).
    rewrite IH. reflexivity.
Qed.

Lemma split_strip (s : string) : split (strip s) = split s.
Proof. unfold strip. rewrite split_rstrip. apply split_lstrip. Qed.

(** [s[:len(p)] == p] says that [p] is a prefix of [s]. *)
Lemma str_take_prefix (p s : string) :
  str_take (String.length p) s = p <-> String.prefix p s = true.
Proof.
  revert s. induction p as [|c p IH]; intros s.
  - simpl. destruct s; tauto.
  - destruct s as [|d s]; simpl; [split; discriminate|].
    destruct (ascii_dec c d) as [->|Hne].
    + rewrite <- IH. split; [intros [= H]; exact H | intros ->; reflexivity].
    + split; [intros [= H _]; congruence | discriminate].
Qed.

(** ** Index sets *)

Lemma StronglySorted_lt_le (l : list Z) :
  StronglySorted Z.lt l -> StronglySorted Z.le l.
Proof.
  induction 1 as [|x l Hl IH Hx]; constructor; [exact IH|].
  eapply Forall_impl; [exact Hx|]. intros y Hy. simpl in Hy. lia.
Qed.

Lemma StronglySorted_lt_NoDup (l : list Z) :
  StronglySorted Z.lt l -> NoDup l.
Proof.
  induction 1 as [|x l Hl IH Hx]; constructor; [|exact IH].
  intros Hin. rewrite Forall_forall in Hx. specialize (Hx x Hin). lia.
Qed.

(** Stored as a [set] and read back with [sorted], an increasing list of
    indices is unchanged. *)
Lemma sorted_ids_list_to_set (l : list Z) :
  StronglySorted Z.lt l -> sorted_ids (list_to_set l) = l.
Proof.
  intros Hl. unfold sorted_ids.
  apply (Sorted_unique Z.le).
  - apply Sorted_merge_sort. intros x y. lia.
  - apply StronglySorted_Sorted, StronglySorted_lt_le, Hl.
  - rewrite merge_sort_Permutation.
    apply elements_list_to_set, StronglySorted_lt_NoDup, Hl.
Qed.

(** ** The alignment tracker in closed form *)

Section TrackerFacts.

Variable tokenize : string -> list string.

(** The start indices of the words that have sub-tokens, counted from [n]. *)
Fixpoint word_starts (n : Z) (words : list string) : list Z :=
  match words with
  | [] => []
  | w :: words' =>
      match tokenize w with
      | [] => word_starts n words'
      | _ :: _ => n :: word_starts (n + len (tokenize w)) words'
      end
  end.

Definition survives (w : string) : Prop := tokenize w <> [].

Lemma track_fold (words : list string) :
  forall (bert : list string) (starts : list Z) (dropped : list string),
    fold_left (track_step tokenize) words (bert, starts, dropped) =
    (bert ++ flat_map tokenize words,
     starts ++ word_starts (len bert) words,
     dropped ++ filter (fun w => tokenize w = []) words).
Proof.
  induction words as [|w words IH]; intros bert starts dropped.
  - simpl. rewrite !app_nil_r. reflexivity.
  - simpl fold_left.
    rewrite filter_cons. simpl flat_map. simpl word_starts.
    destruct (tokenize w) as [|t ts] eqn:Hw.
    + change (len (@nil string) =? 0) with true. cbv iota.
      rewrite IH. rewrite decide_True by reflexivity.
      rewrite <- app_assoc. reflexivity.
    + replace (len (t :: ts) =? 0) with false
        by (rewrite len_cons; pose proof (len_nonneg ts); lia).
      rewrite IH. rewrite decide_False by discriminate.
      rewrite len_app, <- !app_assoc. reflexivity.
Qed.

Lemma filter_survives_nil (words : list string) :
  filter (fun w => tokenize w = []) words = [] ->
  filter survives words = words.
Proof.
  induction words as [|w words IH]; [reflexivity|].
  rewrite !filter_cons. unfold survives at 1.
  destruct (decide (tokenize w = [])) as [Hw|Hw]; [discriminate|].
  intros H. rewrite decide_True by exact Hw. f_equal. apply IH, H.
Qed.

Lemma filter_not_elem_of (tm : gset string) (words : list string) :
  (forall w, w ∈ words -> (w ∈ tm <-> tokenize w = [])) ->
  filter (fun token => token ∉ tm) words = filter survives words.
Proof.
  induction words as [|w words IH]; intros Htm; [reflexivity|].
  rewrite !filter_cons. unfold survives at 1.
  assert (Hw := Htm w ltac:(left)).
  rewrite IH by (intros w' Hin; apply Htm; right; exact Hin).
  destruct (decide (w ∉ tm)) as [Hn|Hn];
    destruct (decide (tokenize w <> [])) as [Ht|Ht]; try reflexivity.
  - exfalso. apply Hn, Hw. destruct (tokenize w); [reflexivity|].
    exfalso. apply Ht. discriminate.
  - exfalso. apply Hn. intros Hin. apply Ht, Hw, Hin.
Qed.

(** Removing by value removes exactly the words without sub-tokens: the
    tokenizer is a function of the word. *)
Lemma remove_tokens_survives (words : list string) :
  remove_tokens words (filter (fun w => tokenize w = []) words) =
  filter survives words.
Proof.
  unfold remove_tokens.
  destruct (Z.gtb_spec (len (filter (fun w => tokenize w = []) words)) 0)
    as [Hgt|Hle].
  - apply filter_not_elem_of. intros w Hin.
    rewrite elem_of_list_to_set, list_elem_of_filter. tauto.
  - symmetry. apply filter_survives_nil, len_nil_inv, Hle.
Qed.

Lemma word_starts_length (words : list string) (n : Z) :
  length (word_starts n words) = length (filter survives words).
Proof.
  revert n. induction words as [|w words IH]; intros n; [reflexivity|].
  rewrite filter_cons. unfold survives at 1.
  destruct (decide (tokenize w <> [])) as [Hw|Hw]; simpl.
  - destruct (tokenize w); [tauto|]. simpl. f_equal. apply IH.
  - destruct (tokenize w); [apply IH|]. exfalso. apply Hw. discriminate.
Qed.

Lemma word_starts_lower (words : list string) (n : Z) :
  Forall (fun k => n <= k) (word_starts n words).
Proof.
  revert n. induction words as [|w words IH]; intros n; [constructor|].
  simpl. destruct (tokenize w) as [|t ts]; [apply IH|].
  constructor; [lia|].
  eapply Forall_impl; [apply IH|]. intros k Hk. simpl in Hk.
  pose proof (len_nonneg (t :: ts)). lia.
Qed.

Lemma word_starts_sorted (words : list string) (n : Z) :
  StronglySorted Z.lt (word_starts n words).
Proof.
  revert n. induction words as [|w words IH]; intros n; [constructor|].
  simpl. destruct (tokenize w) as [|t ts]; [apply IH|].
  constructor; [apply IH|].
  eapply Forall_impl; [apply word_starts_lower|]. intros k Hk. simpl in Hk.
  rewrite len_cons in Hk. pose proof (len_nonneg ts). lia.
Qed.

(** The words without sub-tokens leave no trace: the sentence without them
    gives the same indices and the same tokens. *)
Lemma word_starts_survivors (words : list string) (n : Z) :
  word_starts n (filter survives words) = word_starts n words.
Proof.
  revert n. induction words as [|w words IH]; intros n; [reflexivity|].
  rewrite filter_cons. unfold survives at 1.
  destruct (decide (tokenize w <> [])) as [Hw|Hw]; simpl.
  - destruct (tokenize w); [tauto|]. f_equal. apply IH.
  - destruct (tokenize w); [apply IH|]. exfalso. apply Hw. discriminate.
Qed.

Lemma flat_map_survivors (words : list string) :
  flat_map tokenize (filter survives words) = flat_map tokenize words.
Proof.
  induction words as [|w words IH]; [reflexivity|].
  rewrite filter_cons. unfold survives at 1.
  destruct (decide (tokenize w <> [])) as [Hw|Hw]; simpl.
  - f_equal. exact IH.
  - destruct (tokenize w); [exact IH|]. exfalso. apply Hw. discriminate.
Qed.

Lemma filter_survivors_idem (words : list string) :
  filter (fun w => tokenize w = []) (filter survives words) = [].
Proof.
  induction words as [|w words IH]; [reflexivity|].
  rewrite filter_cons. unfold survives at 1.
  destruct (decide (tokenize w <> [])) as [Hw|Hw]; [|exact IH].
  rewrite filter_cons, decide_False by exact Hw. exact IH.
Qed.

(** A start index points at the first sub-token of its word. *)
Lemma word_starts_lookup (words : list string) :
  forall (bert rest : list string) (i : nat) (w : string) (k : Z),
    filter survives words !! i = Some w ->
    word_starts (len bert) words !! i = Some k ->
    len bert <= k /\
    exists t ts, tokenize w = t :: ts /\
      (bert ++ flat_map tokenize words ++ rest) !! Z.to_nat k = Some t.
Proof.
  induction words as [|w0 words IH]; intros bert rest i w k; [discriminate|].
  rewrite filter_cons. unfold survives at 1. simpl word_starts.
  simpl flat_map.
  destruct (decide (tokenize w0 <> [])) as [Hs|Hs];
    destruct (tokenize w0) as [|t ts] eqn:Hw0;
    [tauto | | apply IH | exfalso; apply Hs; discriminate].
  destruct i as [|i]; simpl.
  - intros [= <-] [= <-]. split; [lia|]. exists t, ts. split; [exact Hw0|].
    unfold len. rewrite Nat2Z.id.
    rewrite lookup_app_r by lia. rewrite Nat.sub_diag. reflexivity.
  - intros Hw Hk. rewrite <- len_app in Hk.
    destruct (IH (bert ++ t :: ts) rest i w k Hw Hk)
      as (Hge & t' & ts' & Htok & Hlook).
    split; [rewrite len_app in Hge; pose proof (len_nonneg (t :: ts)); lia|].
    exists t', ts'. split; [exact Htok|].
    rewrite <- Hlook, <- !app_assoc. reflexivity.
Qed.

Lemma track_sentence_spec (text : string) (bert : list string)
  (site : assert_site) :
  let words := split text in
  track_sentence tokenize text bert site =
  Ok (filter survives words, word_starts (len bert) words,
      bert ++ flat_map tokenize words ++ ["[SEP]"]).
Proof.
  intros words. unfold track_sentence. rewrite split_strip. fold words.
  rewrite track_fold. simpl app.
  rewrite remove_tokens_survives.
  unfold py_assert, len. rewrite word_starts_length, Z.eqb_refl.
  simpl. rewrite <- app_assoc. reflexivity.
Qed.

End TrackerFacts.

(** ** The alignment validator on a single sentence *)

Section ValidatorFacts.

Variable tokenize : string -> list string.

(** The first sub-token of every word that has one. *)
Definition first_tokens (words : list string) : list string :=
  omap (fun w => head (tokenize w)) words.

(** The first sub-token of [w] is literally a prefix of [w]. *)
Definition prefix_ok (w : string) : bool :=
  match tokenize w with
  | [] => true
  | t :: _ => String.prefix t w
  end.

Lemma getitem_app_middle (bert rest : list string) (t : string) :
  getitem (bert ++ t :: rest) (len bert) = Ok t.
Proof.
  unfold getitem. pose proof (len_nonneg bert).
  replace (len bert <? 0) with false by lia.
  replace (len bert <? 0) with false by lia.
  unfold len. rewrite Nat2Z.id, lookup_app_r by lia.
  rewrite Nat.sub_diag. reflexivity.
Qed.

Lemma getitem_word_starts (words : list string) :
  forall bert rest : list string,
    mapM_result (getitem (bert ++ flat_map tokenize words ++ rest))
                (word_starts tokenize (len bert) words) =
    Ok (first_tokens words).
Proof.
  induction words as [|w words IH]; intros bert rest; [reflexivity|].
  unfold first_tokens. simpl.
  destruct (tokenize w) as [|t ts] eqn:Hw; simpl.
  - apply IH.
  - rewrite <- !app_assoc. simpl app. rewrite getitem_app_middle. simpl.
    rewrite <- len_app.
    replace (bert ++ t :: ts ++ flat_map tokenize words ++ rest)
      with ((bert ++ t :: ts) ++ flat_map tokenize words ++ rest)
      by (rewrite <- app_assoc; reflexivity).
    rewrite IH. reflexivity.
Qed.

Lemma first_tokens_length (words : list string) :
  length (first_tokens words) = length (filter (survives tokenize) words).
Proof.
  unfold first_tokens. induction words as [|w words IH]; [reflexivity|].
  rewrite filter_cons. unfold survives at 1.
  destruct (decide (tokenize w <> [])) as [Hw|Hw]; simpl;
    destruct (tokenize w); simpl; try tauto.
  - f_equal. exact IH.
  - exfalso. apply Hw. discriminate.
Qed.

Lemma prefix_check_forallb (words : list string) :
  zip_with (fun bt tok => str_take (String.length bt) tok)
           (first_tokens words) (filter (survives tokenize) words)
    = first_tokens words
  <-> forallb prefix_ok words = true.
Proof.
  unfold first_tokens. induction words as [|w words IH]; [simpl; tauto|].
  rewrite filter_cons. unfold survives at 1. simpl forallb.
  unfold prefix_ok at 1. simpl omap.
  destruct (decide (tokenize w <> [])) as [Hw|Hw];
    destruct (tokenize w) as [|t ts]; simpl; try tauto.
  - rewrite andb_true_iff, <- str_take_prefix. split.
    + intros [= H1 H2]. split; [exact H1 | apply IH; exact H2].
    + intros [H1 H2]. apply IH in H2. f_equal; [exact H1 | exact H2].
  - exfalso. apply Hw. discriminate.
Qed.

(** The record of a single sentence, as [track_example] builds it. *)
Definition single_info (words : list string) : token_info :=
  mkTokenInfo (filter (survives tokenize) words)
              (list_to_set (word_starts tokenize 1 words))
              (["[CLS]"] ++ flat_map tokenize words ++ ["[SEP]"])
              None None.

Lemma track_example_single (example : InputExample) :
  text_b example = None ->
  track_example tokenize example = Ok (single_info (split (text_a example))).
Proof.
  intros Hb. unfold track_example.
  rewrite track_sentence_spec, Hb. reflexivity.
Qed.

Lemma check_feature_single (words : list string) (f : InputFeatures) :
  tokens f = bert_tokens (single_info words) ->
  check_feature (single_info words) f =
  if forallb prefix_ok words then Ok Checked
  else Raise (AssertionError AssertPrefixEqual).
Proof.
  intros Htok. unfold check_feature. rewrite Htok. simpl.
  rewrite bool_decide_eq_true_2 by reflexivity. simpl.
  rewrite sorted_ids_list_to_set by apply word_starts_sorted.
  change 1 with (len ["[CLS]"]).
  change ("[CLS]" :: flat_map tokenize words ++ ["[SEP]"])
    with (["[CLS]"] ++ flat_map tokenize words ++ ["[SEP]"]).
  rewrite getitem_word_starts. simpl.
  unfold len. rewrite first_tokens_length, Z.eqb_refl. simpl.
  destruct (forallb prefix_ok words) eqn:Hall.
  - rewrite bool_decide_eq_true_2; [reflexivity|].
    apply prefix_check_forallb, Hall.
  - rewrite bool_decide_eq_false_2; [reflexivity|].
    rewrite prefix_check_forallb, Hall. discriminate.
Qed.

End ValidatorFacts.

Section PrefixFailure.

Variable tokenize : string -> list string.

Lemma forallb_false_elem {A : Type} (p : A -> bool) (l : list A) :
  forallb p l = false <-> exists x, x ∈ l /\ p x = false.
Proof.
  induction l as [|y l IH]; simpl.
  - split; [discriminate | intros (x & Hx & _); inversion Hx].
  - rewrite andb_false_iff, IH. split.
    + intros [Hy|(x & Hx & Hp)]; [exists y | exists x]; split; auto;
        constructor; exact Hx.
    + intros (x & Hx & Hp). inversion Hx; subst; [left | right]; eauto.
Qed.

(** The prefix assertion fails exactly when some start index points at a
    token that is not a prefix of its word. *)
Lemma prefix_failure_at_start (words : list string) :
  forallb (prefix_ok tokenize) words = false <->
  exists (i : nat) (w : string) (k : Z) (t : string),
    filter (survives tokenize) words !! i = Some w /\
    word_starts tokenize 1 words !! i = Some k /\
    (["[CLS]"] ++ flat_map tokenize words ++ ["[SEP]"]) !! Z.to_nat k = Some t /\
    String.prefix t w = false.
Proof.
  rewrite forallb_false_elem. split.
  - intros (w & Hin & Hbad). unfold prefix_ok in Hbad.
    destruct (tokenize w) as [|t ts] eqn:Hw; [discriminate|].
    assert (Hkept : w ∈ filter (survives tokenize) words).
    { apply list_elem_of_filter. split; [|exact Hin].
      unfold survives. rewrite Hw. discriminate. }
    apply list_elem_of_lookup in Hkept as [i Hi].
    destruct (lookup_lt_is_Some_2 (word_starts tokenize 1 words) i) as [k Hk].
    { rewrite word_starts_length. eapply lookup_lt_Some, Hi. }
    destruct (word_starts_lookup tokenize words ["[CLS]"] ["[SEP]"] i w k Hi Hk)
      as (_ & t' & ts' & Htok & Hlook).
    rewrite Hw in Htok. injection Htok as <- <-.
    exists i, w, k, t. auto.
  - intros (i & w & k & t & Hi & Hk & Hlook & Hbad).
    destruct (word_starts_lookup tokenize words ["[CLS]"] ["[SEP]"] i w k Hi Hk)
      as (_ & t' & ts' & Htok & Hlook').
    rewrite Hlook in Hlook'. injection Hlook' as <-.
    exists w. split.
    + apply list_elem_of_lookup_2 in Hi.
      apply list_elem_of_filter in Hi. tauto.
    + unfold prefix_ok. rewrite Htok. exact Hbad.
Qed.

End PrefixFailure.

(** * The claims of the specification *)

(** C1 (as amended).  Pair truncation is the greedy policy: for every pair of
    token lists and every maximum length, [_truncate_seq_pair] returns a pair
    exactly when the reference steps (remove the last token of the longer
    list, of [tokens_b] on a tie, while the lengths exceed
    [max_seq_length - 3]) end in that pair, and with [max_seq_length >= 3] it
    does return one.  In the single-sentence case, for [max_seq_length >= 2],
    the code's result is the one result of removing last tokens of
    [tokens_a] while [len(tokens_a) > max_seq_length - 2]. *)
Theorem truncation_follows_reference :
  (forall (max_seq_length : Z) (tokens_a tokens_b a' b' : list string),
      _truncate_seq_pair tokens_a tokens_b (max_seq_length - 3) = Ok (a', b')
      <-> Reference.pair_result (max_seq_length - 3)
            (tokens_a, tokens_b) (a', b')) /\
  (forall (max_seq_length : Z) (tokens_a tokens_b : list string),
      3 <= max_seq_length ->
      exists a' b',
        _truncate_seq_pair tokens_a tokens_b (max_seq_length - 3)
        = Ok (a', b')) /\
  (forall (max_seq_length : Z) (tokens_a a' : list string),
      2 <= max_seq_length ->
      Reference.single_result (max_seq_length - 2) tokens_a a'
      <-> a' = truncate_single tokens_a max_seq_length).
Proof.
  split; [|split].
  - intros msl a b a' b'. split.
    + apply (truncate_seq_pair_sound (S (length a + length b))). lia.
    + intros [Hsteps Hfin].
      apply (truncate_seq_pair_complete _ (a, b) (a', b') Hsteps Hfin).
  - intros msl a b Hmsl.
    apply (truncate_seq_pair_total (S (length a + length b))); lia.
  - intros msl a a' Hmsl. apply truncate_single_reference, Hmsl.
Qed.

Lemma truncation_follows_reference_witness :
  2 <= 4 /\
  (Reference.single_result (4 - 2) ["a"; "b"; "c"] ["a"; "b"]
   <-> ["a"; "b"] = truncate_single ["a"; "b"; "c"] 4) /\
  exists a' b', _truncate_seq_pair ["a"; "b"; "c"] ["x"; "y"] (6 - 3)
                = Ok (a', b').
Proof.
  split; [lia|]. split.
  - apply (proj2 (proj2 truncation_follows_reference) 4). lia.
  - apply (proj1 (proj2 truncation_follows_reference) 6). lia.
Defined.

(** C1 as stated fails for a single sentence at a maximum length below 2:
    with [max_seq_length = 1] the slice [tokens_a[0:-1]] drops one token,
    while the reference steps have no result at all. *)
Lemma truncation_single_degenerate :
  truncate_single ["a"; "b"; "c"] 1 = ["a"; "b"] /\
  forall r, ~ Reference.single_result (1 - 2) ["a"; "b"; "c"] r.
Proof.
  split; [reflexivity|].
  intros r [_ Hfin]. pose proof (len_nonneg r). lia.
Qed.

(** C2.  Every encoded example that [convert_examples_to_features] produces
    has [input_ids], [input_mask] and [input_type_ids] of length
    [max_seq_length], whatever the sentences and the length; and from a
    length of 3 on, features are produced for every list of examples. *)
Theorem features_have_configured_length
  (tokenize : string -> list string) (vocab : string -> Z)
  (examples : list InputExample) (seq_length : Z) :
  (3 <= seq_length ->
   exists features,
     convert_examples_to_features tokenize vocab examples seq_length
     = Ok features /\ length features = length examples) /\
  (forall features,
     convert_examples_to_features tokenize vocab examples seq_length
     = Ok features ->
     Forall (fun f => len (input_ids f) = seq_length /\
                      len (input_mask f) = seq_length /\
                      len (input_type_ids f) = seq_length) features).
Proof.
  unfold convert_examples_to_features. split.
  - intros Hsl. induction examples as [|ex exs IH].
    + exists []. split; reflexivity.
    + destruct IH as (fs & Hfs & Hlen).
      destruct (convert_example_ok tokenize vocab seq_length ex Hsl) as [f Hf].
      exists (f :: fs). simpl. rewrite Hf. simpl. rewrite Hfs. simpl.
      split; [reflexivity | rewrite Hlen; reflexivity].
  - intros features H. apply mapM_result_Forall2 in H.
    induction H as [|ex f exs fs Hf _ IH]; constructor; [|exact IH].
    apply (convert_example_inv tokenize vocab seq_length ex f Hf).
Qed.

Lemma features_have_configured_length_witness :
  Forall (fun f => len (input_ids f) = 10 /\ len (input_mask f) = 10 /\
                   len (input_type_ids f) = 10)
    [mkInputFeatures 0
       ["[CLS]"; "New"; "York"; "[SEP]"; "big"; "city"; "[SEP]"]
       [1; 1; 1; 1; 1; 1; 1; 0; 0; 0] [1; 1; 1; 1; 1; 1; 1; 0; 0; 0]
       [0; 0; 0; 0; 1; 1; 1; 0; 0; 0]].
Proof.
  apply (proj2 (features_have_configured_length word_tokenize no_vocab
                  [mkInputExample 0 "New York" (Some "big city")] 10)).
  vm_compute. reflexivity.
Defined.

(** C4.  A single sentence whose sub-tokens fit, [len(tokens) <=
    max_seq_length - 2], is encoded with [len(input_ids) == max_seq_length],
    [sum(input_mask) == len(tokens) + 2] and all [input_type_ids] zero. *)
Theorem single_sentence_encoding
  (tokenize : string -> list string) (vocab : string -> Z)
  (seq_length : Z) (example : InputExample) :
  text_b example = None ->
  len (flat_map tokenize (split_space (text_a example))) <= seq_length - 2 ->
  exists f,
    convert_example tokenize vocab seq_length example = Ok f /\
    len (input_ids f) = seq_length /\
    sum (input_mask f) =
      len (flat_map tokenize (split_space (text_a example))) + 2 /\
    Forall (fun t => t = 0) (input_type_ids f).
Proof.
  intros Hb Hfit.
  pose proof (len_nonneg (flat_map tokenize (split_space (text_a example)))).
  eexists. split; [apply convert_example_single_fits; assumption|].
  simpl input_ids. simpl input_mask. simpl input_type_ids.
  split; [|split].
  - len_norm. lia.
  - rewrite sum_cons, sum_app, sum_repeat_0, sum_map_1. len_norm. lia.
  - constructor; [reflexivity|]. rewrite !Forall_app. repeat split.
    + apply Forall_forall. intros t Ht. apply list_elem_of_In in Ht.
      apply in_map_iff in Ht as (? & <- & _). reflexivity.
    + repeat constructor.
    + apply Forall_forall. intros t Ht. apply list_elem_of_In in Ht.
      apply repeat_spec in Ht. exact Ht.
Qed.

Lemma single_sentence_encoding_witness :
  exists f,
    convert_example word_tokenize no_vocab 6 (mkInputExample 0 "the dog" None)
    = Ok f /\
    len (input_ids f) = 6 /\
    sum (input_mask f) =
      len (flat_map word_tokenize (split_space "the dog")) + 2 /\
    Forall (fun t => t = 0) (input_type_ids f).
Proof.
  apply (single_sentence_encoding word_tokenize no_vocab 6
           (mkInputExample 0 "the dog" None)).
  - reflexivity.
  - vm_compute. discriminate.
Defined.

(** C9 (as amended).  The builder has no guard for a maximum length too
    small for the markers, and yet emits nothing there: with a non-empty
    [tokens_b] and [max_seq_length < 3] the truncation loop pops the empty
    [tokens_b] and raises [IndexError]; with no [tokens_b] (absent, or empty
    after tokenization) and [max_seq_length < 2] the length assertion of line
    283 fails.  Either way the whole call raises. *)
Theorem degenerate_length_raises
  (tokenize : string -> list string) (vocab : string -> Z)
  (seq_length : Z) (examples : list InputExample) (example : InputExample)
  (tokens_a : list string) (tokens_b : option (list string)) :
  In example examples ->
  tokenize_example tokenize example = (tokens_a, tokens_b) ->
  match tokens_b with
  | Some (_ :: _) => seq_length < 3
  | _ => seq_length < 2
  end ->
  convert_example tokenize vocab seq_length example =
    Raise match tokens_b with
          | Some (_ :: _) => IndexError
          | _ => AssertionError AssertLenInputIds
          end /\
  exists e,
    convert_examples_to_features tokenize vocab examples seq_length = Raise e.
Proof.
  intros Hin Htok Hsl.
  assert (Hex : convert_example tokenize vocab seq_length example =
    Raise match tokens_b with
          | Some (_ :: _) => IndexError
          | _ => AssertionError AssertLenInputIds
          end).
  { destruct tokens_b as [[|x b]|].
    - eapply convert_example_single_degenerate; eauto.
    - eapply convert_example_pair_degenerate; eauto.
    - eapply convert_example_single_degenerate; eauto. }
  split; [exact Hex|].
  eapply mapM_result_raise; [exact Hin | exact Hex].
Qed.

Lemma degenerate_length_raises_witness :
  convert_example word_tokenize no_vocab 2
    (mkInputExample 0 "New York" (Some "big city")) = Raise IndexError /\
  exists e,
    convert_examples_to_features word_tokenize no_vocab
      [mkInputExample 0 "New York" (Some "big city")] 2 = Raise e.
Proof.
  apply (degenerate_length_raises word_tokenize no_vocab 2
           [mkInputExample 0 "New York" (Some "big city")]
           (mkInputExample 0 "New York" (Some "big city"))
           ["New"; "York"] (Some ["big"; "city"])).
  - left. reflexivity.
  - reflexivity.
  - simpl. lia.
Defined.

(** C9 as stated fails: a two-sentence line whose second sentence has no
    sub-tokens (here a control character, which the tokenizer drops) is
    encoded at [max_seq_length = 2] without any failure; and where the
    builder does fail it is by [IndexError] from the loop, not by a guard. *)
Lemma two_sentence_length_two_succeeds :
  read_examples ("a ||| " ++ String "001" EmptyString) =
    [mkInputExample 0 "a" (Some (String "001" EmptyString))] /\
  convert_examples_to_features clean_tokenize no_vocab
    (read_examples ("a ||| " ++ String "001" EmptyString)) 2 =
    Ok [mkInputFeatures 0 ["[CLS]"; "[SEP]"] [1; 1] [1; 1] [0; 0]] /\
  convert_examples_to_features clean_tokenize no_vocab
    (read_examples "a ||| b") 2 = Raise IndexError.
Proof. vm_compute. repeat split. Qed.

(** C3.  A word without sub-tokens is absent from [original_words], has no
    entry in [word_start_indices] and adds nothing to the accumulated
    tokens: the tracker's indices and tokens are those of the sentence with
    such words deleted beforehand, every recorded index is the position of
    its word's first sub-token, and the word list and the index list (also
    as the stored set) have the same length. *)
Theorem dropped_words_leave_no_trace
  (tokenize : string -> list string) (text : string)
  (bert_tokens : list string) (site : assert_site) :
  let words := split (strip text) in
  let kept := filter (survives tokenize) words in
  exists starts : list Z,
    track_sentence tokenize text bert_tokens site =
      Ok (kept, starts, bert_tokens ++ flat_map tokenize kept ++ ["[SEP]"]) /\
    (forall w, tokenize w = [] -> w ∉ kept) /\
    length kept = length starts /\
    size (list_to_set starts : gset Z) = length kept /\
    fold_left (track_step tokenize) kept (bert_tokens, [], []) =
      (bert_tokens ++ flat_map tokenize kept, starts, []) /\
    (forall (i : nat) (w : string) (k : Z),
        kept !! i = Some w -> starts !! i = Some k ->
        exists t ts,
          tokenize w = t :: ts /\
          (bert_tokens ++ flat_map tokenize kept ++ ["[SEP]"]) !! Z.to_nat k
          = Some t).
Proof.
  intros words kept. exists (word_starts tokenize (len bert_tokens) words).
  split; [|split; [|split; [|split; [|split]]]].
  - rewrite track_sentence_spec, <- split_strip. fold words. fold kept.
    unfold kept. rewrite flat_map_survivors. reflexivity.
  - intros w Hw Hin. apply list_elem_of_filter in Hin as [Hs _].
    apply Hs, Hw.
  - symmetry. apply word_starts_length.
  - rewrite size_list_to_set
      by apply StronglySorted_lt_NoDup, word_starts_sorted.
    apply word_starts_length.
  - rewrite track_fold. unfold kept.
    rewrite word_starts_survivors, filter_survivors_idem. reflexivity.
  - intros i w k Hi Hk. unfold kept. rewrite flat_map_survivors.
    destruct (word_starts_lookup tokenize words bert_tokens ["[SEP]"]
                i w k Hi Hk) as (_ & t & ts & Htok & Hlook).
    eauto.
Qed.

Lemma dropped_words_leave_no_trace_witness :
  exists starts : list Z,
    track_sentence clean_tokenize
      ("New " ++ String "001" " York") ["[CLS]"] AssertTrackerLen =
      Ok (["New"; "York"], starts, ["[CLS]"; "New"; "York"; "[SEP]"]) /\
    starts !! 1%nat = Some 2.
Proof.
  destruct (dropped_words_leave_no_trace clean_tokenize
              ("New " ++ String "001" " York") ["[CLS]"] AssertTrackerLen)
    as (starts & Htrack & _ & _ & _ & Hfold & _).
  exists starts. split; [exact Htrack|].
  vm_compute in Hfold. injection Hfold as <-. reflexivity.
Defined.

(** C6.  When no word of the sentence is without sub-tokens,
    [original_words] has as many words as the whitespace split of the input
    text (it is that split), and the start indices are strictly increasing,
    so that the stored set, sorted, is the recorded list. *)
Theorem alignment_round_trip
  (tokenize : string -> list string) (text : string)
  (bert_tokens : list string) (site : assert_site) :
  Forall (survives tokenize) (split text) ->
  exists (words : list string) (starts : list Z) (toks : list string),
    track_sentence tokenize text bert_tokens site = Ok (words, starts, toks) /\
    words = split text /\
    length words = length (split text) /\
    length starts = length words /\
    StronglySorted Z.lt starts /\
    sorted_ids (list_to_set starts) = starts.
Proof.
  intros Hall.
  assert (Hkept : filter (survives tokenize) (split text) = split text).
  { induction Hall as [|w ws Hw _ IH]; [reflexivity|].
    rewrite filter_cons, decide_True by exact Hw. f_equal. exact IH. }
  eexists _, _, _. split; [apply track_sentence_spec|].
  rewrite Hkept. repeat split.
  - rewrite word_starts_length, Hkept. reflexivity.
  - apply word_starts_sorted.
  - apply sorted_ids_list_to_set, word_starts_sorted.
Qed.

Lemma alignment_round_trip_witness :
  exists (words : list string) (starts : list Z) (toks : list string),
    track_sentence word_tokenize " New  York " ["[CLS]"] AssertTrackerLen
    = Ok (words, starts, toks) /\
    words = split " New  York " /\
    length words = length (split " New  York ") /\
    length starts = length words /\
    StronglySorted Z.lt starts /\
    sorted_ids (list_to_set starts) = starts.
Proof.
  apply (alignment_round_trip word_tokenize " New  York " ["[CLS]"]
           AssertTrackerLen).
  vm_compute. repeat constructor; discriminate.
Defined.

(** What the JSON side channel shows of a record: the words, the sorted
    indices and the tokens, for the first and for the second sentence. *)
Definition info_view (info : token_info)
  : list string * list Z * list string
    * option (list string) * option (list Z) :=
  (original_tokens info, sorted_ids (original_to_bert info),
   bert_tokens info,
   original_tokens2 info, sorted_ids <$> original_to_bert2 info).

(** C5 (as amended).  For the line "New York ||| big city" with
    [max_seq_length = 10] and a tokenizer that leaves every word whole, the
    tokens are [[CLS] New York [SEP] big city [SEP]], the type ids are
    [[0,0,0,0,1,1,1,0,0,0]], [original_to_bert] is [[1, 2]] (one start per
    word of the first sentence) and [original_to_bert2] is [[4, 5]], whose
    first element is the position of "big" in the combined sequence. *)
Theorem new_york_big_city_example (vocab : string -> Z) :
  let examples := read_examples "New York ||| big city" in
  examples = [mkInputExample 0 "New York" (Some "big city")] /\
  (map (fun f => (tokens f, input_type_ids f)) <$>
     convert_examples_to_features word_tokenize vocab examples 10) =
    Ok [(["[CLS]"; "New"; "York"; "[SEP]"; "big"; "city"; "[SEP]"],
         [0; 0; 0; 0; 1; 1; 1; 0; 0; 0])] /\
  (map info_view <$> mapM_result (track_example word_tokenize) examples) =
    Ok [(["New"; "York"], [1; 2],
         ["[CLS]"; "New"; "York"; "[SEP]"; "big"; "city"; "[SEP]"],
         Some ["big"; "city"], Some [4; 5])] /\
  ["[CLS]"; "New"; "York"; "[SEP]"; "big"; "city"; "[SEP]"] !! 4%nat
    = Some "big".
Proof. vm_compute. repeat split. Qed.

(** C5 as stated fails: [original_to_bert] of that line is not [[1]]. *)
Lemma new_york_original_to_bert_not_singleton :
  (map (fun info => sorted_ids (original_to_bert info)) <$>
     mapM_result (track_example word_tokenize)
       (read_examples "New York ||| big city")) = Ok [[1; 2]] /\
  [1; 2] <> [1].
Proof. split; [vm_compute; reflexivity | discriminate]. Qed.

(** C7 (as amended).  On a single sentence that passed the token-sequence
    check, the validator fails at the prefix assertion exactly when, for some
    surviving word, the token at its recorded start index is not literally
    (case-sensitively) a prefix of the word; otherwise it passes.  No
    lower-casing is taken into account. *)
Theorem prefix_check_is_literal
  (tokenize : string -> list string) (example : InputExample)
  (info : token_info) (f : InputFeatures) :
  text_b example = None ->
  track_example tokenize example = Ok info ->
  tokens f = bert_tokens info ->
  (check_feature info f = Raise (AssertionError AssertPrefixEqual) <->
   exists (i : nat) (w : string) (k : Z) (t : string),
     original_tokens info !! i = Some w /\
     sorted_ids (original_to_bert info) !! i = Some k /\
     tokens f !! Z.to_nat k = Some t /\
     String.prefix t w = false) /\
  (check_feature info f <> Raise (AssertionError AssertPrefixEqual) ->
   check_feature info f = Ok Checked).
Proof.
  intros Hb Htrack Htok.
  rewrite (track_example_single tokenize example Hb) in Htrack.
  injection Htrack as <-.
  rewrite (check_feature_single tokenize _ f Htok), Htok.
  simpl original_tokens. simpl original_to_bert. simpl bert_tokens.
  rewrite sorted_ids_list_to_set by apply word_starts_sorted.
  pose proof (prefix_failure_at_start tokenize (split (text_a example)))
    as Hfail.
  destruct (forallb (prefix_ok tokenize) (split (text_a example))).
  - split; [|reflexivity]. split; [discriminate|].
    intros H. apply Hfail in H. discriminate.
  - split; [|intros H; exfalso; apply H; reflexivity].
    split; [intros _; apply Hfail; reflexivity | reflexivity].
Qed.

Lemma prefix_check_is_literal_witness :
  check_feature (single_info uncased_tokenize ["new"; "york"])
    (mkInputFeatures 0 ["[CLS]"; "new"; "york"; "[SEP]"] [] [] [])
  = Ok Checked.
Proof.
  apply (proj2 (prefix_check_is_literal uncased_tokenize
                  (mkInputExample 0 "new york" None)
                  (single_info uncased_tokenize ["new"; "york"])
                  (mkInputFeatures 0 ["[CLS]"; "new"; "york"; "[SEP]"]
                                   [] [] [])
                  eq_refl eq_refl eq_refl)).
  vm_compute. discriminate.
Defined.

(** C7 as stated fails: with a lower-casing tokenizer the capitalized word
    "New" has the first sub-token "new", a prefix of the lower-cased word,
    and the validator fails at the prefix assertion all the same. *)
Lemma prefix_check_rejects_lowercased_prefix :
  (map tokens <$> convert_examples_to_features uncased_tokenize no_vocab
                    (read_examples "New") 128) = Ok [["[CLS]"; "new"; "[SEP]"]] /\
  main_keys uncased_tokenize no_vocab "New" 128 =
    Raise (AssertionError AssertPrefixEqual) /\
  case_appropriate_prefix true "new" "New" = true.
Proof. vm_compute. repeat split. Qed.

(** C8 (as amended).  The token-sequence check is skipped exactly for the
    examples that have a second sentence, and it is performed for every
    single-sentence example, truncated or not: there the validator fails at
    the token-sequence assertion exactly when the tracker's tokens differ
    from the feature's tokens. *)
Theorem token_check_skipped_for_pairs_only
  (tokenize : string -> list string) (example : InputExample)
  (info : token_info) (f : InputFeatures) :
  track_example tokenize example = Ok info ->
  (check_feature info f = Ok Skipped <-> text_b example <> None) /\
  (text_b example = None ->
   (check_feature info f = Raise (AssertionError AssertTokensEqual)
    <-> bert_tokens info <> tokens f)).
Proof.
  intros Htrack. destruct (text_b example) as [tb|] eqn:Hb.
  - unfold track_example in Htrack.
    rewrite track_sentence_spec, Hb in Htrack. simpl in Htrack.
    rewrite track_sentence_spec in Htrack. simpl in Htrack.
    injection Htrack as <-. simpl.
    split; [split; [discriminate | reflexivity] | discriminate].
  - rewrite (track_example_single tokenize example Hb) in Htrack.
    injection Htrack as <-.
    destruct (decide (bert_tokens (single_info tokenize (split (text_a example)))
                      = tokens f)) as [Heq|Hne].
    + rewrite (check_feature_single tokenize _ f (eq_sym Heq)).
      destruct (forallb _ _); (split; [split; [discriminate | tauto]|]);
        intros _; (split; [discriminate | tauto]).
    + assert (Hraise : check_feature
                (single_info tokenize (split (text_a example))) f
              = Raise (AssertionError AssertTokensEqual)).
      { unfold check_feature. simpl original_tokens2. cbv iota.
        rewrite bool_decide_eq_false_2 by exact Hne. reflexivity. }
      rewrite Hraise. split; [split; [discriminate | tauto] | tauto].
Qed.

Lemma token_check_skipped_for_pairs_only_witness :
  check_feature (single_info word_tokenize ["a"; "b"])
    (mkInputFeatures 0 ["[CLS]"; "a"; "[SEP]"] [1; 1; 1] [1; 1; 1] [0; 0; 0])
  = Raise (AssertionError AssertTokensEqual).
Proof.
  apply (proj2 (token_check_skipped_for_pairs_only word_tokenize
                  (mkInputExample 0 "a b" None)
                  (single_info word_tokenize ["a"; "b"])
                  (mkInputFeatures 0 ["[CLS]"; "a"; "[SEP]"]
                                   [1; 1; 1] [1; 1; 1] [0; 0; 0])
                  eq_refl) eq_refl).
  vm_compute. discriminate.
Defined.

(** C8 as stated fails: the single sentence "a b" is truncated at
    [max_seq_length = 3], and the check is performed on it, not skipped:
    the run stops at the token-sequence assertion. *)
Lemma token_check_runs_on_truncated :
  flat_map word_tokenize (split_space "a b") = ["a"; "b"] /\
  (map tokens <$> convert_examples_to_features word_tokenize no_vocab
                    (read_examples "a b") 3) = Ok [["[CLS]"; "a"; "[SEP]"]] /\
  (map bert_tokens <$> mapM_result (track_example word_tokenize)
                         (read_examples "a b"))
    = Ok [["[CLS]"; "a"; "b"; "[SEP]"]] /\
  main_keys word_tokenize no_vocab "a b" 3 =
    Raise (AssertionError AssertTokensEqual).
Proof. vm_compute. repeat split. Qed.

(** C10.  The keys of the feature store are not distinct across examples:
    a sentence pair with id [u] is written under [str(2u)] and [str(2u+1)],
    a single sentence with id [2u] or [2u+1] under its own id, hence under
    one of the pair's keys; and a run on a pair line followed by a single
    line creates the key "1" twice. *)
Theorem feature_store_keys_collide :
  (forall (pair single : token_info) (u v : Z),
      is_Some (original_to_bert2 pair) ->
      original_to_bert2 single = None ->
      v = 2 * u \/ v = 2 * u + 1 ->
      exists key, key ∈ dataset_keys pair u /\ key ∈ dataset_keys single v) /\
  main_keys word_tokenize no_vocab ("a ||| b" ++ String "010" "c") 128
    = Ok ["0"; "1"; "1"] /\
  ~ NoDup ["0"; "1"; "1"].
Proof.
  split; [|split].
  - intros pair single u v [s Hs] Hnone Hv. unfold dataset_keys.
    rewrite Hs, Hnone. exists (str v). split; [|constructor].
    destruct Hv as [-> | ->]; [left | right; left].
  - vm_compute. reflexivity.
  - intros H. inversion H as [|x l Hnotin Hrest]; subst.
    inversion Hrest as [|y l' Hnotin' _]; subst.
    apply Hnotin'. left.
Qed.

Lemma feature_store_keys_collide_witness :
  exists key,
    key ∈ dataset_keys (mkTokenInfo ["a"] {[1]} ["[CLS]"; "a"; "[SEP]"; "b"; "[SEP]"]
                          (Some ["b"]) (Some {[3]})) 0 /\
    key ∈ dataset_keys (single_info word_tokenize ["c"]) 1.
Proof.
  apply (proj1 feature_store_keys_collide
           (mkTokenInfo ["a"] {[1]} ["[CLS]"; "a"; "[SEP]"; "b"; "[SEP]"]
                        (Some ["b"]) (Some {[3]}))
           (single_info word_tokenize ["c"]) 0 1).
  - eexists. reflexivity.
  - reflexivity.
  - right. reflexivity.
Defined.

(** * Further properties of the code *)

(** ** Truncation: what is kept *)

Lemma truncate_seq_pair_shape (n : nat) :
  forall (a b : list string) (m : Z) (a' b' : list string),
    (length a + length b < n)%nat ->
    _truncate_seq_pair a b m = Ok (a', b') ->
    a' `prefix_of` a /\ b' `prefix_of` b /\
    len a' + len b' = Z.min (len a + len b) m /\
    (len a' < len a -> len b' <= len a') /\
    (len b' < len b -> len a' <= len b' + 1).
Proof.
  induction n as [|n IH]; intros a b m a' b' Hn; [lia|].
  rewrite truncate_seq_pair_unfold.
  destruct (Z.leb_spec (len a + len b) m) as [Hle|Hgt].
  - intros [= <- <-]. repeat split; try reflexivity; lia.
  - destruct (Z.ltb_spec (len b) (len a)) as [Hlt|Hge].
    + destruct (pop a) as [a0|e] eqn:Hpop; [|discriminate]. simpl.
      intros Hrec. assert (Hlen := pop_length _ _ Hpop).
      destruct (pop_inv _ _ Hpop) as [x ->].
      apply IH in Hrec; [|lia].
      destruct Hrec as (Ha & Hb & Hsum & Hbal1 & Hbal2).
      rewrite len_app in *. change (len [x]) with 1 in *.
      assert (len a' <= len a0).
      { destruct Ha as [k ->]. rewrite len_app. pose proof (len_nonneg k). lia. }
      assert (len b' <= len b).
      { destruct Hb as [k ->]. rewrite len_app. pose proof (len_nonneg k). lia. }
      repeat split.
      * destruct Ha as [k ->]. exists (k ++ [x]). rewrite app_assoc. reflexivity.
      * exact Hb.
      * lia.
      * intros _. destruct (Z.eq_dec (len a') (len a0)); [lia|].
        apply Hbal1. lia.
      * exact Hbal2.
    + destruct (pop b) as [b0|e] eqn:Hpop; [|discriminate]. simpl.
      intros Hrec. assert (Hlen := pop_length _ _ Hpop).
      destruct (pop_inv _ _ Hpop) as [x ->].
      apply IH in Hrec; [|lia].
      destruct Hrec as (Ha & Hb & Hsum & Hbal1 & Hbal2).
      rewrite len_app in *. change (len [x]) with 1 in *.
      assert (len a' <= len a).
      { destruct Ha as [k ->]. rewrite len_app. pose proof (len_nonneg k). lia. }
      assert (len b' <= len b0).
      { destruct Hb as [k ->]. rewrite len_app. pose proof (len_nonneg k). lia. }
      repeat split.
      * exact Ha.
      * destruct Hb as [k ->]. exists (k ++ [x]). rewrite app_assoc. reflexivity.
      * lia.
      * exact Hbal1.
      * intros _. destruct (Z.eq_dec (len b') (len b0)); [lia|].
        apply Hbal2. lia.
Qed.

Lemma prefix_of_len_eq {A : Type} (l k : list A) :
  l `prefix_of` k -> len l = len k -> l = k.
Proof.
  intros [r ->] Hlen. rewrite len_app in Hlen.
  assert (r = []) as -> by (apply len_nil_inv; lia).
  rewrite app_nil_r. reflexivity.
Qed.

(** X1.  With a budget that is not negative, [_truncate_seq_pair] returns
    prefixes of both lists whose lengths add up to the smaller of the
    original total and the budget: only last tokens go, and no more of them
    than needed. *)
Theorem truncate_seq_pair_keeps_prefixes
  (tokens_a tokens_b : list string) (max_length : Z) :
  0 <= max_length ->
  exists a' b',
    _truncate_seq_pair tokens_a tokens_b max_length = Ok (a', b') /\
    a' `prefix_of` tokens_a /\ b' `prefix_of` tokens_b /\
    len a' + len b' = Z.min (len tokens_a + len tokens_b) max_length.
Proof.
  intros Hm.
  destruct (truncate_seq_pair_total (S (length tokens_a + length tokens_b))
              tokens_a tokens_b max_length ltac:(lia) Hm) as (a' & b' & Heq).
  exists a', b'. split; [exact Heq|].
  apply (truncate_seq_pair_shape _ _ _ _ _ _ (Nat.lt_succ_diag_r _)) in Heq.
  tauto.
Qed.

Lemma truncate_seq_pair_keeps_prefixes_witness :
  exists a' b',
    _truncate_seq_pair ["a"; "b"; "c"] ["x"; "y"] 3 = Ok (a', b') /\
    a' `prefix_of` ["a"; "b"; "c"] /\ b' `prefix_of` ["x"; "y"] /\
    len a' + len b' = Z.min (len ["a"; "b"; "c"] + len ["x"; "y"]) 3.
Proof.
  apply (truncate_seq_pair_keeps_prefixes ["a"; "b"; "c"] ["x"; "y"] 3). lia.
Defined.

(** X2.  The truncation is balanced: [tokens_a] is only cut down to the
    length of what is left of [tokens_b], and [tokens_b] only down to one
    less than what is left of [tokens_a]; so a sequence that takes no more
    than half of the budget is returned whole. *)
Theorem truncate_seq_pair_balanced
  (tokens_a tokens_b : list string) (max_length : Z) (a' b' : list string) :
  _truncate_seq_pair tokens_a tokens_b max_length = Ok (a', b') ->
  (len a' < len tokens_a -> len b' <= len a') /\
  (len b' < len tokens_b -> len a' <= len b' + 1) /\
  (2 * len tokens_a <= max_length -> a' = tokens_a) /\
  (2 * len tokens_b <= max_length -> b' = tokens_b).
Proof.
  intros Heq.
  apply (truncate_seq_pair_shape _ _ _ _ _ _ (Nat.lt_succ_diag_r _)) in Heq.
  destruct Heq as (Ha & Hb & Hsum & Hbal1 & Hbal2).
  assert (len a' <= len tokens_a).
  { destruct Ha as [k ->]. rewrite len_app. pose proof (len_nonneg k). lia. }
  assert (len b' <= len tokens_b).
  { destruct Hb as [k ->]. rewrite len_app. pose proof (len_nonneg k). lia. }
  split; [exact Hbal1|]. split; [exact Hbal2|]. split.
  - intros Hhalf. apply prefix_of_len_eq; [exact Ha|].
    destruct (Z.eq_dec (len a') (len tokens_a)); [assumption|]. lia.
  - intros Hhalf. apply prefix_of_len_eq; [exact Hb|].
    destruct (Z.eq_dec (len b') (len tokens_b)); [assumption|]. lia.
Qed.

Lemma truncate_seq_pair_balanced_witness :
  (len ["a"] < len ["a"; "b"; "c"; "d"] -> len ["x"] <= len ["a"]) /\
  (len ["x"] < len ["x"] -> len ["a"] <= len ["x"] + 1) /\
  (2 * len ["a"; "b"; "c"; "d"] <= 2 -> ["a"] = ["a"; "b"; "c"; "d"]) /\
  (2 * len ["x"] <= 2 -> ["x"] = ["x"]).
Proof.
  apply (truncate_seq_pair_balanced ["a"; "b"; "c"; "d"] ["x"] 2).
  vm_compute. reflexivity.
Defined.

(** X3.  Truncation is idempotent: a pair that [_truncate_seq_pair] returned
    is returned unchanged when truncated again to the same length. *)
Theorem truncate_seq_pair_idempotent
  (tokens_a tokens_b : list string) (max_length : Z) (a' b' : list string) :
  _truncate_seq_pair tokens_a tokens_b max_length = Ok (a', b') ->
  _truncate_seq_pair a' b' max_length = Ok (a', b').
Proof.
  intros Heq.
  apply (truncate_seq_pair_shape _ _ _ _ _ _ (Nat.lt_succ_diag_r _)) in Heq.
  destruct Heq as (_ & _ & Hsum & _).
  rewrite truncate_seq_pair_unfold.
  replace (len a' + len b' <=? max_length) with true by lia. reflexivity.
Qed.

Lemma truncate_seq_pair_idempotent_witness :
  _truncate_seq_pair ["a"; "b"] ["x"] 3 = Ok (["a"; "b"], ["x"]).
Proof.
  apply (truncate_seq_pair_idempotent ["a"; "b"; "c"] ["x"; "y"] 3).
  vm_compute. reflexivity.
Defined.

(** ** The sequence builder: layout of an encoded example *)

Section BuilderLayout.

Variable tokenize : string -> list string.
Variable vocab : string -> Z.

Lemma convert_example_layout (seq_length : Z) (example : InputExample)
  (f : InputFeatures) :
  convert_example tokenize vocab seq_length example = Ok f ->
  exists (a' : list string) (b' : option (list string)),
    truncate_tokens seq_length (fst (tokenize_example tokenize example))
                    (snd (tokenize_example tokenize example)) = Ok (a', b') /\
    len (fst (build_tokens a' b')) <= seq_length /\
    f = mkInputFeatures (unique_id example) (fst (build_tokens a' b'))
          (map vocab (fst (build_tokens a' b')) ++
           repeat 0 (Z.to_nat (seq_length - len (fst (build_tokens a' b')))))
          (map (fun _ => 1) (map vocab (fst (build_tokens a' b'))) ++
           repeat 0 (Z.to_nat (seq_length - len (fst (build_tokens a' b')))))
          (snd (build_tokens a' b') ++
           repeat 0 (Z.to_nat (seq_length - len (fst (build_tokens a' b'))))).
Proof.
  unfold convert_example.
  destruct (tokenize_example tokenize example) as [a b]. simpl fst. simpl snd.
  destruct (truncate_tokens seq_length a b) as [[a' b']|e]; [|discriminate].
  simpl mbind. pose proof (build_tokens_len a' b') as Hty.
  destruct (build_tokens a' b') as [toks tys] eqn:Hbt. simpl in Hty.
  intros Hpad. exists a', b'. split; [reflexivity|]. rewrite Hbt.
  simpl fst. simpl snd.
  destruct (Z.le_gt_cases (len toks) seq_length) as [Hle|Hgt].
  - split; [exact Hle|].
    rewrite pad_features_ok in Hpad by assumption.
    injection Hpad as <-. reflexivity.
  - rewrite pad_features_long in Hpad by lia. discriminate.
Qed.

Lemma build_tokens_ends (a : list string) (b : option (list string)) :
  exists middle, fst (build_tokens a b) = ["[CLS]"] ++ middle ++ ["[SEP]"] /\
                 len a <= len middle.
Proof.
  unfold build_tokens. destruct b as [[|x b]|]; simpl fst.
  - exists a. split; [reflexivity | lia].
  - exists (a ++ ["[SEP]"] ++ x :: b). split.
    + rewrite <- !app_assoc. reflexivity.
    + rewrite len_app. pose proof (len_nonneg (["[SEP]"] ++ x :: b)). lia.
  - exists a. split; [reflexivity | lia].
Qed.

(** X4.  In every encoded example the tokens begin with [[CLS]], end with
    [[SEP]] and are at most [seq_length] many; [input_ids] are their
    vocabulary ids followed by zeros, [input_mask] is a one per token
    followed by zeros, and [sum(input_mask)] is the number of tokens. *)
Theorem encoded_example_ids_and_mask (seq_length : Z)
  (example : InputExample) (f : InputFeatures) :
  convert_example tokenize vocab seq_length example = Ok f ->
  let n := Z.to_nat (seq_length - len (tokens f)) in
  (exists middle, tokens f = ["[CLS]"] ++ middle ++ ["[SEP]"]) /\
  len (tokens f) <= seq_length /\
  input_ids f = map vocab (tokens f) ++ repeat 0 n /\
  input_mask f = repeat 1 (length (tokens f)) ++ repeat 0 n /\
  sum (input_mask f) = len (tokens f).
Proof.
  intros H. apply convert_example_layout in H as (a' & b' & _ & Hle & ->).
  simpl. destruct (build_tokens_ends a' b') as (middle & Hmid & _).
  assert (Hones : forall l : list Z,
             map (fun _ : Z => 1) l = repeat 1 (length l)).
  { induction l as [|x l IH]; simpl; [reflexivity | rewrite IH; reflexivity]. }
  split; [exists middle; exact Hmid|]. split; [exact Hle|].
  split; [reflexivity|]. split.
  - rewrite Hones, length_map. reflexivity.
  - rewrite sum_app, sum_repeat_0, sum_map_1, len_map. lia.
Qed.

End BuilderLayout.

Lemma encoded_example_ids_and_mask_witness :
  sum [1; 1; 1; 1; 0; 0] = len ["[CLS]"; "the"; "dog"; "[SEP]"].
Proof.
  apply (encoded_example_ids_and_mask word_tokenize no_vocab 6
           (mkInputExample 0 "the dog" None)
           (mkInputFeatures 0 ["[CLS]"; "the"; "dog"; "[SEP]"]
              [1; 1; 1; 1; 0; 0] [1; 1; 1; 1; 0; 0] [0; 0; 0; 0; 0; 0])).
  vm_compute. reflexivity.
Defined.

Lemma map_const_repeat {A B : Type} (x : B) (l : list A) :
  map (fun _ => x) l = repeat x (length l).
Proof. induction l as [|y l IH]; simpl; [reflexivity | rewrite IH; reflexivity]. Qed.

Lemma prefix_of_len {A : Type} (l k : list A) :
  l `prefix_of` k -> len l <= len k.
Proof. intros [r ->]. rewrite len_app. pose proof (len_nonneg r). lia. Qed.

Lemma type_ids_repeat {A : Type} (a b : list A) :
  ([0] ++ map (fun _ => 0) a ++ [0]) ++ map (fun _ => 1) b ++ [1] =
  repeat 0 (length a + 2) ++ repeat 1 (length b + 1).
Proof.
  rewrite !map_const_repeat.
  change [0] with (repeat 0 1). change [1] with (repeat 1 1).
  rewrite <- !repeat_app. f_equal. f_equal. lia.
Qed.

Section BuilderPairs.

Variable tokenize : string -> list string.
Variable vocab : string -> Z.

(** X5.  From [seq_length = 5] on, a pair whose second sentence has
    sub-tokens keeps some of them: the tokens are [[CLS]], a prefix of
    [tokens_a], [[SEP]], a non-empty prefix of [tokens_b], [[SEP]], and the
    type ids are 0 through the first [[SEP]], 1 through the second, and 0 on
    the padding. *)
Theorem pair_segment_layout (seq_length : Z) (example : InputExample)
  (tokens_a tokens_b : list string) :
  tokenize_example tokenize example = (tokens_a, Some tokens_b) ->
  tokens_b <> [] ->
  5 <= seq_length ->
  exists (a' b' : list string) (f : InputFeatures),
    convert_example tokenize vocab seq_length example = Ok f /\
    a' `prefix_of` tokens_a /\ b' `prefix_of` tokens_b /\ b' <> [] /\
    tokens f = ["[CLS]"] ++ a' ++ ["[SEP]"] ++ b' ++ ["[SEP]"] /\
    input_type_ids f =
      repeat 0 (length a' + 2) ++ repeat 1 (length b' + 1) ++
      repeat 0 (Z.to_nat (seq_length - len (tokens f))).
Proof.
  intros Htok Hb Hsl.
  destruct tokens_b as [|x b]; [congruence|].
  destruct (truncate_seq_pair_total (S (length tokens_a + length (x :: b)))
              tokens_a (x :: b) (seq_length - 3) ltac:(lia) ltac:(lia))
    as (a' & b' & Heq).
  pose proof (truncate_seq_pair_shape _ _ _ _ _ _
                (Nat.lt_succ_diag_r _) Heq) as (Ha & Hb' & Hsum & Hbal1 & Hbal2).
  pose proof (prefix_of_len _ _ Ha) as Hla.
  pose proof (len_nonneg a') as Hna. pose proof (len_nonneg b) as Hnb.
  rewrite len_cons in *.
  assert (Hne : b' <> []).
  { intros ->. change (len (@nil string)) with 0 in *. lia. }
  destruct b' as [|y b']; [congruence|].
  exists a', (y :: b'). eexists. split.
  - unfold convert_example. rewrite Htok. unfold truncate_tokens.
    rewrite Heq. simpl mbind. unfold build_tokens.
    apply pad_features_ok.
    + len_norm. rewrite len_cons in Hsum. lia.
    + len_norm. reflexivity.
  - simpl tokens. simpl input_type_ids.
    split; [exact Ha|]. split; [exact Hb'|]. split; [exact Hne|].
    split; [rewrite <- !app_assoc; reflexivity|].
    rewrite (app_assoc (repeat 0 (length a' + 2))), <- type_ids_repeat.
    reflexivity.
Qed.

(** X6.  At [seq_length = 4] the budget is one token: a pair with sub-tokens
    on both sides keeps the first token of the first sentence and nothing of
    the second, and is encoded like a single sentence, with one [[SEP]] and
    all type ids zero. *)
Theorem pair_loses_second_sentence (example : InputExample)
  (x : string) (tokens_a : list string) (tokens_b : list string) :
  tokenize_example tokenize example = (x :: tokens_a, Some tokens_b) ->
  tokens_b <> [] ->
  convert_example tokenize vocab 4 example =
  Ok (mkInputFeatures (unique_id example) ["[CLS]"; x; "[SEP]"]
        [vocab "[CLS]"; vocab x; vocab "[SEP]"; 0] [1; 1; 1; 0]
        [0; 0; 0; 0]).
Proof.
  intros Htok Hb. destruct tokens_b as [|z b]; [congruence|].
  destruct (truncate_seq_pair_total
              (S (length (x :: tokens_a) + length (z :: b)))
              (x :: tokens_a) (z :: b) (4 - 3) ltac:(lia) ltac:(lia))
    as (a' & b' & Heq).
  pose proof (truncate_seq_pair_shape _ _ _ _ _ _
                (Nat.lt_succ_diag_r _) Heq) as (Ha & Hb' & Hsum & Hbal1 & Hbal2).
  pose proof (len_nonneg a'). pose proof (len_nonneg b').
  pose proof (len_nonneg tokens_a). pose proof (len_nonneg b).
  rewrite !len_cons in *.
  assert (b' = []) as ->.
  { destruct b' as [|y b']; [reflexivity|]. rewrite len_cons in *.
    pose proof (len_nonneg b'). lia. }
  change (len (@nil string)) with 0 in *.
  assert (a' = [x]) as ->.
  { destruct Ha as [k Hk]. destruct a' as [|x' [|x'' a']].
    - change (len (@nil string)) with 0 in *. lia.
    - injection Hk as -> _. reflexivity.
    - rewrite !len_cons in *. pose proof (len_nonneg a'). lia. }
  unfold convert_example. rewrite Htok. unfold truncate_tokens.
  rewrite Heq. reflexivity.
Qed.

(** X7.  The features come in the order of the examples, one per example,
    each with the [unique_id] of its example. *)
Theorem features_keep_ids (examples : list InputExample) (seq_length : Z)
  (features : list InputFeatures) :
  convert_examples_to_features tokenize vocab examples seq_length
  = Ok features ->
  map feature_unique_id features = map unique_id examples.
Proof.
  unfold convert_examples_to_features. intros H.
  apply mapM_result_Forall2 in H.
  induction H as [|ex f exs fs Hf _ IH]; [reflexivity|].
  simpl. rewrite IH. f_equal.
  apply convert_example_layout in Hf as (a' & b' & _ & _ & ->). reflexivity.
Qed.

End BuilderPairs.

Lemma pair_segment_layout_witness :
  exists (a' b' : list string) (f : InputFeatures),
    convert_example word_tokenize no_vocab 6
      (mkInputExample 0 "New York" (Some "big city")) = Ok f /\
    a' `prefix_of` ["New"; "York"] /\ b' `prefix_of` ["big"; "city"] /\
    b' <> [] /\
    tokens f = ["[CLS]"] ++ a' ++ ["[SEP]"] ++ b' ++ ["[SEP]"] /\
    input_type_ids f =
      repeat 0 (length a' + 2) ++ repeat 1 (length b' + 1) ++
      repeat 0 (Z.to_nat (6 - len (tokens f))).
Proof.
  apply (pair_segment_layout word_tokenize no_vocab 6
           (mkInputExample 0 "New York" (Some "big city"))
           ["New"; "York"] ["big"; "city"]).
  - reflexivity.
  - discriminate.
  - lia.
Defined.

Lemma pair_loses_second_sentence_witness :
  convert_example word_tokenize no_vocab 4
    (mkInputExample 7 "New York" (Some "big city")) =
  Ok (mkInputFeatures 7 ["[CLS]"; "New"; "[SEP]"] [1; 1; 1; 0] [1; 1; 1; 0]
        [0; 0; 0; 0]).
Proof.
  apply (pair_loses_second_sentence word_tokenize no_vocab
           (mkInputExample 7 "New York" (Some "big city"))
           "New" ["York"] ["big"; "city"]).
  - reflexivity.
  - discriminate.
Defined.

Lemma features_keep_ids_witness :
  map feature_unique_id
    [mkInputFeatures 3 ["[CLS]"; "a"; "[SEP]"] [1; 1; 1] [1; 1; 1] [0; 0; 0];
     mkInputFeatures 5 ["[CLS]"; "b"; "[SEP]"] [1; 1; 1] [1; 1; 1] [0; 0; 0]]
  = map unique_id [mkInputExample 3 "a" None; mkInputExample 5 "b" None].
Proof.
  apply (features_keep_ids word_tokenize no_vocab
           [mkInputExample 3 "a" None; mkInputExample 5 "b" None] 3).
  vm_compute. reflexivity.
Defined.

(** ** Reading the input: lines and examples *)

(** The example that lines 333-342 build from a stripped line. *)
Definition example_of_line (unique_id : Z) (line : string) : InputExample :=
  match match_pair line with
  | None => mkInputExample unique_id line None
  | Some (g1, g2) => mkInputExample unique_id g1 (Some g2)
  end.

Lemma read_loop_step (reader : string) (uid : Z)
  (examples : list InputExample) :
  read_loop reader uid examples =
  match readline reader with
  | (EmptyString, _) => examples
  | (String c l, rest) =>
      read_loop rest (uid + 1)
        (examples ++ [example_of_line uid (strip (String c l))])
  end.
Proof.
  funelim (read_loop reader uid examples);
    match goal with E : readline _ = _ |- _ => rewrite E end; reflexivity.
Qed.

Lemma read_loop_new (n : nat) :
  forall (reader : string) (uid : Z) (examples : list InputExample),
    (String.length reader < n)%nat ->
    exists new,
      read_loop reader uid examples = examples ++ new /\
      map unique_id new = seqZ uid (len new) /\
      Forall (fun ex => exists line,
                  ex = example_of_line (unique_id ex) (strip line)) new.
Proof.
  induction n as [|n IH]; intros reader uid examples Hn; [lia|].
  rewrite read_loop_step.
  destruct (readline reader) as [[|c l] rest] eqn:Hread.
  - exists []. rewrite app_nil_r. repeat split. constructor.
  - apply readline_length in Hread.
    destruct (IH rest (uid + 1)
                (examples ++ [example_of_line uid (strip (String c l))])
                ltac:(lia)) as (new & Heq & Hids & Hall).
    exists (example_of_line uid (strip (String c l)) :: new).
    assert (Huid : unique_id (example_of_line uid (strip (String c l))) = uid).
    { unfold example_of_line.
      destruct (match_pair (strip (String c l))) as [[g1 g2]|]; reflexivity. }
    split; [rewrite Heq, <- app_assoc; reflexivity|]. split.
    + simpl map. rewrite Hids, Huid, len_cons.
      rewrite (seqZ_cons uid) by (pose proof (len_nonneg new); lia).
      f_equal. f_equal; lia.
    + constructor; [|exact Hall].
      exists (String c l). rewrite Huid. reflexivity.
Qed.

(** X8.  [read_examples] numbers the examples from 0 in the order of the
    lines: the ids are [0, 1, ..., n - 1]. *)
Theorem read_examples_ids (input_file : string) :
  map unique_id (read_examples input_file) =
  seqZ 0 (len (read_examples input_file)) /\
  NoDup (map unique_id (read_examples input_file)).
Proof.
  unfold read_examples.
  destruct (read_loop_new (S (String.length input_file)) input_file 0 []
              ltac:(lia)) as (new & -> & Hids & _).
  simpl app. rewrite Hids. split; [reflexivity | apply NoDup_seqZ].
Qed.

Definition LF : string := String "010" EmptyString.

(** No line feed in [s]. *)
Fixpoint no_lf (s : string) : bool :=
  match s with
  | EmptyString => true
  | String c s' => negb (Ascii.eqb c "010"%char) && no_lf s'
  end.

(** The file whose lines are [lines], each ended by a line feed, followed by
    a last line [last] without one (possibly empty). *)
Fixpoint join_lines (lines : list string) (last : string) : string :=
  match lines with
  | [] => last
  | l :: lines' => l +:+ String "010" (join_lines lines' last)
  end.

Fixpoint examples_from (unique_id : Z) (lines : list string)
  : list InputExample :=
  match lines with
  | [] => []
  | l :: lines' =>
      example_of_line unique_id (strip l)
      :: examples_from (unique_id + 1) lines'
  end.

Lemma str_app_cons (c : ascii) (s t : string) :
  String c s +:+ t = String c (s +:+ t).
Proof. reflexivity. Qed.

Lemma str_app_nil_l (t : string) : EmptyString +:+ t = t.
Proof. reflexivity. Qed.

Ltac str_norm := repeat first [rewrite str_app_cons | rewrite str_app_nil_l].

Lemma str_app_assoc (s t u : string) : (s +:+ t) +:+ u = s +:+ (t +:+ u).
Proof.
  induction s as [|c s IH]; str_norm; [reflexivity | rewrite IH; reflexivity].
Qed.

Lemma str_app_nil_r (s : string) : s +:+ EmptyString = s.
Proof.
  induction s as [|c s IH]; str_norm; [reflexivity | rewrite IH; reflexivity].
Qed.

Lemma rstrip_app_space (s : string) (c : ascii) :
  is_space c = true -> rstrip (s +:+ String c EmptyString) = rstrip s.
Proof.
  intros Hc. induction s as [|d s IH]; str_norm; simpl.
  - rewrite Hc. reflexivity.
  - rewrite IH. reflexivity.
Qed.

Lemma strip_app_space (s : string) (c : ascii) :
  is_space c = true -> strip (s +:+ String c EmptyString) = strip s.
Proof.
  intros Hc. unfold strip. induction s as [|d s IH]; str_norm.
  - simpl. rewrite Hc. reflexivity.
  - simpl lstrip. destruct (is_space d); [exact IH|].
    apply (rstrip_app_space (String d s) c Hc).
Qed.

Lemma readline_line (l rest : string) :
  no_lf l = true ->
  readline (l +:+ String "010" rest) = (l +:+ LF, rest).
Proof.
  induction l as [|c l IH]; str_norm; simpl; [reflexivity|].
  destruct (Ascii.eqb c "010"%char); [discriminate|]. simpl.
  intros H. rewrite (IH H). reflexivity.
Qed.

Lemma readline_last (l : string) :
  no_lf l = true -> readline l = (l, EmptyString).
Proof.
  induction l as [|c l IH]; simpl; [reflexivity|].
  destruct (Ascii.eqb c "010"%char); [discriminate|]. simpl.
  intros H. rewrite (IH H). reflexivity.
Qed.

Lemma read_loop_lines (lines : list string) (last : string) :
  Forall (fun l => no_lf l = true) lines ->
  no_lf last = true ->
  forall (uid : Z) (examples : list InputExample),
    read_loop (join_lines lines last) uid examples =
    examples ++
    examples_from uid
      (lines ++ match last with EmptyString => [] | _ => [last] end).
Proof.
  intros Hlines Hlast. induction Hlines as [|l lines Hl _ IH];
    intros uid examples.
  - simpl join_lines. rewrite read_loop_step, (readline_last last Hlast).
    destruct last as [|c l]; [rewrite app_nil_r; reflexivity|].
    rewrite read_loop_step. reflexivity.
  - simpl join_lines. rewrite read_loop_step, (readline_line l _ Hl).
    assert (Hstrip : strip (l +:+ LF) = strip l)
      by (apply strip_app_space; reflexivity).
    destruct (l +:+ LF) as [|c l'] eqn:Hline.
    + destruct l; revert Hline; str_norm; discriminate.
    + rewrite IH, Hstrip, <- app_assoc. reflexivity.
Qed.

(** X9.  Every line of the input gives one example, in order and numbered
    from 0, built from the stripped line; a blank line is not skipped (it
    gives an example with empty [text_a]), and a last line without line feed
    counts when it is not empty. *)
Theorem read_examples_per_line (lines : list string) (last : string) :
  Forall (fun l => no_lf l = true) lines ->
  no_lf last = true ->
  read_examples (join_lines lines last) =
  examples_from 0
    (lines ++ match last with EmptyString => [] | _ => [last] end).
Proof.
  intros Hlines Hlast. unfold read_examples.
  rewrite (read_loop_lines lines last Hlines Hlast). reflexivity.
Qed.

Lemma read_examples_per_line_witness :
  read_examples (join_lines ["a ||| b"; ""; " c "] "d") =
  [mkInputExample 0 "a" (Some "b"); mkInputExample 1 "" None;
   mkInputExample 2 "c" None; mkInputExample 3 "d" None].
Proof.
  rewrite (read_examples_per_line ["a ||| b"; ""; " c "] "d").
  - reflexivity.
  - repeat constructor.
  - reflexivity.
Defined.

(** ** The separator of a sentence pair *)

Definition separator : string := " ||| ".

Lemma str_prefix_app (p s : string) :
  String.prefix p s = true <-> exists r, s = p +:+ r.
Proof.
  revert s. induction p as [|c p IH]; intros s.
  - simpl. split; [eauto | destruct s; reflexivity].
  - destruct s as [|d s]; simpl.
    + split; [discriminate | intros [r Hr]; revert Hr; str_norm; discriminate].
    + destruct (ascii_dec c d) as [->|Hne].
      * rewrite IH. split; intros [r Hr]; exists r; revert Hr; str_norm;
          congruence.
      * split; [discriminate | intros [r Hr]; revert Hr; str_norm; congruence].
Qed.

Lemma str_drop_app (p r : string) : str_drop (String.length p) (p +:+ r) = r.
Proof.
  induction p as [|c p IH]; str_norm; simpl;
    [destruct r; reflexivity | exact IH].
Qed.

Lemma match_pair_cons (c : ascii) (line : string) :
  match_pair (String c line) =
  match match_pair line with
  | Some (g1, g2) => Some (String c g1, g2)
  | None =>
      if String.prefix " ||| " (String c line)
      then Some (EmptyString, str_drop 5 (String c line))
      else None
  end.
Proof. reflexivity. Qed.

Lemma match_pair_spec (line : string) :
  (forall g1 g2,
      match_pair line = Some (g1, g2) ->
      line = g1 +:+ separator +:+ g2 /\
      forall h1 h2, line = h1 +:+ separator +:+ h2 ->
                    (String.length h1 <= String.length g1)%nat) /\
  (match_pair line = None <->
   forall h1 h2, line <> h1 +:+ separator +:+ h2).
Proof.
  induction line as [|c line [IHs IHn]].
  - split.
    + intros g1 g2. discriminate.
    + split; [|reflexivity]. intros _ [|d h1] h2; str_norm; discriminate.
  - rewrite match_pair_cons.
    destruct (match_pair line) as [[g1 g2]|] eqn:Hrec.
    + destruct (IHs g1 g2 eq_refl) as [Hline Hmax]. split.
      * intros g1' g2' Heq.
        assert (g1' = String c g1 /\ g2' = g2) as [-> ->]
          by (inversion Heq; auto).
        split.
        -- rewrite str_app_cons, <- Hline. reflexivity.
        -- intros [|d h1] h2 Hh; [simpl; lia|].
           rewrite str_app_cons in Hh. injection Hh as _ Hh.
           specialize (Hmax h1 h2 Hh). simpl. lia.
      * split; [discriminate|]. intros Hno. exfalso.
        apply (Hno (String c g1) g2).
        rewrite str_app_cons, <- Hline. reflexivity.
    + assert (Hnone : forall h1 h2, line <> h1 +:+ separator +:+ h2)
        by (apply IHn; reflexivity).
      destruct (String.prefix " ||| " (String c line)) eqn:Hpre.
      * apply str_prefix_app in Hpre as [r Hr]. split.
        -- intros g1 g2 Heq.
           assert (g1 = EmptyString /\ g2 = str_drop 5 (String c line))
             as [-> ->] by (inversion Heq; split; reflexivity).
           rewrite Hr.
           change 5%nat with (String.length " ||| "). rewrite str_drop_app.
           split; [reflexivity|].
           intros [|d h1] h2 Hh; [simpl; lia|].
           rewrite <- Hr, str_app_cons in Hh. injection Hh as _ Hh.
           exfalso. exact (Hnone h1 h2 Hh).
        -- split; [discriminate|]. intros Hno. exfalso.
           apply (Hno EmptyString r). exact Hr.
      * split; [intros g1 g2; discriminate|]. split; [|reflexivity].
        intros _ [|d h1] h2 Hh.
        -- assert (String.prefix " ||| " (String c line) = true)
             by (apply str_prefix_app; exists h2; exact Hh).
           congruence.
        -- rewrite str_app_cons in Hh. injection Hh as _ Hh.
           exact (Hnone h1 h2 Hh).
Qed.

(** X10.  The line is cut at its last separator: when [match_pair] finds
    groups, the line is the first group, the separator, the second group,
    and no cut further right exists; it finds none exactly when the line has
    no separator. *)
Theorem match_pair_last_separator (line : string) :
  (forall g1 g2,
      match_pair line = Some (g1, g2) ->
      line = g1 +:+ separator +:+ g2 /\
      forall h1 h2, line = h1 +:+ separator +:+ h2 ->
                    (String.length h1 <= String.length g1)%nat) /\
  (match_pair line = None <->
   forall h1 h2, line <> h1 +:+ separator +:+ h2).
Proof. exact (match_pair_spec line). Qed.

Lemma match_pair_last_separator_witness :
  "a ||| b ||| c" = "a ||| b" +:+ separator +:+ "c" /\
  forall h1 h2, "a ||| b ||| c" = h1 +:+ separator +:+ h2 ->
                (String.length h1 <= String.length "a ||| b")%nat.
Proof.
  apply (proj1 (match_pair_last_separator "a ||| b ||| c") "a ||| b" "c").
  reflexivity.
Defined.

Lemma rstrip_no_trailing_space (s t : string) (c : ascii) :
  rstrip s = t +:+ String c EmptyString -> is_space c = false.
Proof.
  revert t. induction s as [|d s IH]; intros t.
  - simpl. destruct t; str_norm; discriminate.
  - change (rstrip (String d s)) with
      (match rstrip s with
       | EmptyString => if is_space d then EmptyString else String d EmptyString
       | String e r => String d (String e r)
       end).
    destruct (rstrip s) as [|e r] eqn:Hr.
    + destruct (is_space d) eqn:Hd.
      * destruct t; str_norm; discriminate.
      * destruct t as [|d' t]; str_norm.
        -- intros [= <-]. exact Hd.
        -- intros [= _ H]. destruct t; revert H; str_norm; discriminate.
    + destruct t as [|d' t]; str_norm.
      * discriminate.
      * intros [= _ H]. apply (IH t). exact H.
Qed.

Lemma example_of_line_text_b (uid : Z) (line : string) :
  text_b (example_of_line uid (strip line)) <> Some EmptyString.
Proof.
  unfold example_of_line.
  destruct (match_pair (strip line)) as [[g1 g2]|] eqn:Hm; [|discriminate].
  simpl. intros [= ->].
  apply (proj1 (match_pair_spec (strip line))) in Hm as [Hline _].
  unfold separator in Hline. rewrite str_app_nil_r in Hline.
  change " ||| " with (" |||" +:+ String " " EmptyString) in Hline.
  rewrite <- str_app_assoc in Hline.
  apply rstrip_no_trailing_space in Hline. discriminate.
Qed.

(** X11.  An example read from a file never has the empty string as
    [text_b]; so the builder, which asks whether [text_b] is true, and the
    tracker, which asks whether it is [None], agree on which examples are
    pairs: the builder tokenizes [text_b] exactly when it is present. *)
Theorem read_examples_text_b (tokenize : string -> list string)
  (input_file : string) (example : InputExample) :
  In example (read_examples input_file) ->
  text_b example <> Some EmptyString /\
  snd (tokenize_example tokenize example) = tokenize <$> text_b example.
Proof.
  unfold read_examples. intros Hin.
  destruct (read_loop_new (S (String.length input_file)) input_file 0 []
              ltac:(lia)) as (new & Heq & _ & Hall).
  rewrite Heq in Hin. simpl in Hin.
  rewrite Forall_forall in Hall.
  destruct (Hall example) as [line Hex]; [apply list_elem_of_In; exact Hin|].
  assert (Hb : text_b example <> Some EmptyString)
    by (rewrite Hex; apply example_of_line_text_b).
  split; [exact Hb|].
  unfold tokenize_example. simpl snd.
  destruct (text_b example) as [[|c t]|]; [congruence | reflexivity..].
Qed.

Lemma read_examples_text_b_witness :
  text_b (mkInputExample 0 "a" (Some "b")) <> Some EmptyString /\
  snd (tokenize_example word_tokenize (mkInputExample 0 "a" (Some "b")))
  = word_tokenize <$> text_b (mkInputExample 0 "a" (Some "b")).
Proof.
  apply (read_examples_text_b word_tokenize "a ||| b").
  vm_compute. left. reflexivity.
Defined.

(** ** The alignment tracker: records and index ranges *)

Section TrackerRecords.

Variable tokenize : string -> list string.

(** The record of a sentence pair, as [track_example] builds it. *)
Definition pair_info (words words2 : list string) : token_info :=
  let bert := ["[CLS]"] ++ flat_map tokenize words ++ ["[SEP]"] in
  mkTokenInfo (filter (survives tokenize) words)
              (list_to_set (word_starts tokenize 1 words))
              (bert ++ flat_map tokenize words2 ++ ["[SEP]"])
              (Some (filter (survives tokenize) words2))
              (Some (list_to_set (word_starts tokenize (len bert) words2))).

Lemma track_example_pair (example : InputExample) (text : string) :
  text_b example = Some text ->
  track_example tokenize example =
  Ok (pair_info (split (text_a example)) (split text)).
Proof.
  intros Hb. unfold track_example.
  rewrite track_sentence_spec, Hb. simpl mbind.
  rewrite track_sentence_spec. reflexivity.
Qed.

Lemma word_starts_upper (words : list string) (n : Z) :
  Forall (fun k => k < n + len (flat_map tokenize words))
         (word_starts tokenize n words).
Proof.
  revert n. induction words as [|w words IH]; intros n; [constructor|].
  change (flat_map tokenize (w :: words))
    with (tokenize w ++ flat_map tokenize words).
  change (word_starts tokenize n (w :: words))
    with (match tokenize w with
          | [] => word_starts tokenize n words
          | _ :: _ => n :: word_starts tokenize (n + len (tokenize w)) words
          end).
  rewrite len_app.
  pose proof (len_nonneg (flat_map tokenize words)).
  specialize (IH (n + len (tokenize w))).
  destruct (tokenize w) as [|t ts].
  - change (len (@nil string)) with 0 in *. rewrite Z.add_0_r in IH.
    eapply Forall_impl; [apply IH|]. intros k Hk. simpl in Hk. lia.
  - rewrite len_cons in *. pose proof (len_nonneg ts).
    constructor; [lia|].
    eapply Forall_impl; [apply IH|]. intros k Hk. simpl in Hk. lia.
Qed.

(** X12.  The tracker never fails: the length assertions of lines 403 and
    427 hold for every example, because a word is dropped exactly when it
    has no start index.  The record has the second sentence's entries
    exactly when [text_b] is present. *)
Theorem track_example_never_raises (example : InputExample) :
  exists info,
    track_example tokenize example = Ok info /\
    original_tokens info = filter (survives tokenize) (split (text_a example)) /\
    original_tokens2 info =
      (fun text => filter (survives tokenize) (split text)) <$> text_b example /\
    (is_Some (original_to_bert2 info) <-> is_Some (text_b example)).
Proof.
  destruct (text_b example) as [text|] eqn:Hb.
  - eexists. split; [apply track_example_pair; exact Hb|].
    simpl. repeat split; eauto.
  - eexists. split; [apply track_example_single; exact Hb|].
    simpl. repeat split; eauto; intros [x Hx]; discriminate.
Qed.

(** X13.  The start indices never point at a marker and the two index sets
    do not meet: with [n1] and [n2] sub-tokens in the two sentences, the
    indices of the first lie in [1 .. n1], those of the second in
    [n1 + 2 .. n1 + n2 + 1], and the accumulated sequence has
    [n1 + n2 + 3] tokens. *)
Theorem start_index_ranges (example : InputExample) (text : string)
  (info : token_info) (ids2 : gset Z) :
  text_b example = Some text ->
  track_example tokenize example = Ok info ->
  original_to_bert2 info = Some ids2 ->
  let n1 := len (flat_map tokenize (split (text_a example))) in
  let n2 := len (flat_map tokenize (split text)) in
  len (bert_tokens info) = n1 + n2 + 3 /\
  (forall k, k ∈ original_to_bert info -> 1 <= k <= n1) /\
  (forall k, k ∈ ids2 -> n1 + 2 <= k <= n1 + n2 + 1) /\
  original_to_bert info ## ids2.
Proof.
  intros Hb Htrack Hids n1 n2.
  rewrite (track_example_pair example text Hb) in Htrack.
  injection Htrack as <-. simpl in Hids. injection Hids as <-. simpl.
  assert (H1 : forall k,
             k ∈ (list_to_set (word_starts tokenize 1
                                 (split (text_a example))) : gset Z) ->
             1 <= k <= n1).
  { intros k Hk. apply elem_of_list_to_set in Hk.
    pose proof (word_starts_lower tokenize (split (text_a example)) 1) as Hlo.
    pose proof (word_starts_upper (split (text_a example)) 1) as Hup.
    rewrite Forall_forall in Hlo, Hup.
    specialize (Hlo k Hk). specialize (Hup k Hk). simpl in Hlo, Hup.
    fold n1 in Hup. lia. }
  assert (Hlen : len ("[CLS]" :: flat_map tokenize (split (text_a example))
                        ++ ["[SEP]"]) = n1 + 2).
  { len_norm. fold n1. lia. }
  assert (H2 : forall k,
             k ∈ (list_to_set
                    (word_starts tokenize
                       (len ("[CLS]" :: flat_map tokenize
                                          (split (text_a example)) ++ ["[SEP]"]))
                       (split text)) : gset Z) ->
             n1 + 2 <= k <= n1 + n2 + 1).
  { intros k Hk. apply elem_of_list_to_set in Hk.
    pose proof (word_starts_lower tokenize (split text)
                  (len ("[CLS]" :: flat_map tokenize (split (text_a example))
                          ++ ["[SEP]"]))) as Hlo.
    pose proof (word_starts_upper (split text)
                  (len ("[CLS]" :: flat_map tokenize (split (text_a example))
                          ++ ["[SEP]"]))) as Hup.
    rewrite Forall_forall in Hlo, Hup.
    specialize (Hlo k Hk). specialize (Hup k Hk). simpl in Hlo, Hup.
    rewrite Hlen in Hlo, Hup. fold n2 in Hup. lia. }
  split; [|split; [exact H1 | split; [exact H2|]]].
  - len_norm. fold n1 n2. lia.
  - intros k Hk1 Hk2. apply H1 in Hk1. apply H2 in Hk2. lia.
Qed.

End TrackerRecords.

Lemma start_index_ranges_witness :
  len ["[CLS]"; "New"; "York"; "[SEP]"; "big"; "city"; "[SEP]"] = 2 + 2 + 3.
Proof.
  apply (start_index_ranges word_tokenize
           (mkInputExample 0 "New York" (Some "big city")) "big city"
           (pair_info word_tokenize ["New"; "York"] ["big"; "city"])
           (list_to_set [4; 5]) eq_refl eq_refl eq_refl).
Defined.

(** ** The dictionary of records and the validator's lookups *)

Lemma mapM_result_raise_inv {A B : Type} (f : A -> result B) (l : list A)
  (e : exn) :
  mapM_result f l = Raise e -> exists x, In x l /\ f x = Raise e.
Proof.
  induction l as [|y l IH]; simpl; [discriminate|].
  destruct (f y) as [b|e'] eqn:Hy; simpl.
  - destruct (mapM_result f l) as [bs|e'']; simpl; [discriminate|].
    intros [= ->]. destruct (IH eq_refl) as (x & Hin & Hx). eauto.
  - intros [= ->]. eauto.
Qed.

Lemma getitem_raise {A : Type} (l : list A) (i : Z) (e : exn) :
  getitem l i = Raise e -> e = IndexError.
Proof.
  unfold getitem. destruct (_ <? 0); [intros [= <-]; reflexivity|].
  destruct (l !! _); [discriminate | intros [= <-]; reflexivity].
Qed.

Lemma check_feature_raise (info : token_info) (f : InputFeatures) (e : exn) :
  check_feature info f = Raise e -> e <> KeyError.
Proof.
  unfold check_feature, py_assert.
  destruct (original_tokens2 info); [discriminate|].
  destruct (bool_decide _); simpl; [|intros [= <-]; discriminate].
  destruct (mapM_result _ _) as [bots|e'] eqn:Hget; simpl.
  - destruct (_ =? _); simpl; [|intros [= <-]; discriminate].
    destruct (bool_decide _); simpl; [discriminate | intros [= <-]; discriminate].
  - intros [= <-]. apply mapM_result_raise_inv in Hget as (i & _ & Hi).
    apply getitem_raise in Hi. subst. discriminate.
Qed.

Section Records.

Variable tokenize : string -> list string.
Variable vocab : string -> Z.

(** The record [track_example] returns for an example. *)
Definition record_of (example : InputExample) : token_info :=
  match text_b example with
  | None => single_info tokenize (split (text_a example))
  | Some text => pair_info tokenize (split (text_a example)) (split text)
  end.

Lemma track_example_record (example : InputExample) :
  track_example tokenize example = Ok (record_of example).
Proof.
  unfold record_of. destruct (text_b example) as [text|] eqn:Hb.
  - apply track_example_pair, Hb.
  - apply track_example_single, Hb.
Qed.

Lemma track_examples_spec (examples : list InputExample) :
  forall d0 : gmap Z token_info,
  exists d,
    track_examples tokenize examples d0 = Ok d /\
    dom d = dom d0 ∪ list_to_set (map unique_id examples) /\
    (NoDup (map unique_id examples) ->
     forall example, In example examples ->
                     d !! unique_id example = Some (record_of example)) /\
    (forall k, ~ In k (map unique_id examples) -> d !! k = d0 !! k).
Proof.
  induction examples as [|ex exs IH]; intros d0.
  - exists d0. simpl. split; [reflexivity|].
    split; [symmetry; apply (right_id_L ∅ (∪))|].
    split; [tauto | reflexivity].
  - simpl track_examples. rewrite track_example_record. simpl mbind.
    destruct (IH (<[unique_id ex := record_of ex]> d0))
      as (d & Heq & Hdom & Hlook & Hother).
    exists d. split; [exact Heq|]. split; [|split].
    + rewrite Hdom, dom_insert_L. simpl map. rewrite list_to_set_cons.
      apply set_eq. intros x. rewrite !elem_of_union. tauto.
    + intros Hnd example [<-|Hin].
      * inversion Hnd as [|? ? Hnotin Hnd']; subst.
        rewrite list_elem_of_In in Hnotin.
        rewrite (Hother _ Hnotin). apply lookup_insert_eq.
      * inversion Hnd as [|? ? Hnotin Hnd']; subst. apply (Hlook Hnd' _ Hin).
    + intros k Hk. simpl in Hk.
      rewrite Hother by tauto. apply lookup_insert_ne. tauto.
Qed.

Lemma convert_examples_ids (examples : list InputExample) (seq_length : Z)
  (features : list InputFeatures) :
  convert_examples_to_features tokenize vocab examples seq_length
  = Ok features ->
  map feature_unique_id features = map unique_id examples.
Proof.
  unfold convert_examples_to_features. intros H.
  apply mapM_result_Forall2 in H.
  induction H as [|ex f exs fs Hf _ IH]; [reflexivity|].
  simpl. rewrite IH. f_equal.
  apply convert_example_layout in Hf as (a' & b' & _ & _ & ->). reflexivity.
Qed.

(** X14.  The dictionary built at lines 384-431 has exactly the ids of the
    examples as keys and, when the ids are distinct, holds under each id the
    record of its example; the validator therefore finds a record for every
    feature of the same examples and never raises [KeyError]. *)
Theorem records_by_unique_id (examples : list InputExample)
  (seq_length : Z) :
  exists d : gmap Z token_info,
    track_examples tokenize examples ∅ = Ok d /\
    dom d = list_to_set (map unique_id examples) /\
    (NoDup (map unique_id examples) ->
     forall example, In example examples ->
       d !! unique_id example = Some (record_of example)) /\
    (forall features e,
       convert_examples_to_features tokenize vocab examples seq_length
       = Ok features ->
       check_features d features = Raise e -> e <> KeyError).
Proof.
  destruct (track_examples_spec examples ∅) as (d & Heq & Hdom & Hlook & _).
  exists d. split; [exact Heq|].
  split; [rewrite Hdom, dom_empty_L; apply (left_id_L ∅ (∪))|].
  split; [exact Hlook|].
  intros features e Hconv Hcheck.
  apply convert_examples_ids in Hconv.
  apply mapM_result_raise_inv in Hcheck as (f & Hin & Hf).
  assert (Hkey : feature_unique_id f ∈ dom d).
  { rewrite Hdom, elem_of_union, elem_of_list_to_set. right.
    rewrite <- Hconv. apply list_elem_of_In, in_map, Hin. }
  apply elem_of_dom in Hkey as [info Hinfo].
  unfold lookup_info in Hf. rewrite Hinfo in Hf. simpl in Hf.
  apply (check_feature_raise info f e Hf).
Qed.

End Records.

Lemma records_by_unique_id_witness :
  exists d : gmap Z token_info,
    track_examples word_tokenize [mkInputExample 4 "a" None] ∅ = Ok d /\
    d !! 4 = Some (record_of word_tokenize (mkInputExample 4 "a" None)).
Proof.
  destruct (records_by_unique_id word_tokenize no_vocab
              [mkInputExample 4 "a" None] 8) as (d & Heq & _ & Hlook & _).
  exists d. split; [exact Heq|].
  apply (Hlook (NoDup_singleton 4) (mkInputExample 4 "a" None)).
  left. reflexivity.
Defined.

(** ** The two ways of splitting [text_a] *)

(** Every whitespace character of [s] is a plain space. *)
Fixpoint plain_spaces (s : string) : bool :=
  match s with
  | EmptyString => true
  | String c s' =>
      (negb (is_space c) || Ascii.eqb c " "%char) && plain_spaces s'
  end.

Lemma split_space_cons (c : ascii) (s : string) :
  split_space (String c s) =
  if Ascii.eqb c " "%char then EmptyString :: split_space s
  else match split_space s with
       | w :: ws => String c w :: ws
       | [] => [String c EmptyString]
       end.
Proof. reflexivity. Qed.

Lemma split_cons (c : ascii) (s : string) :
  split (String c s) =
  if is_space c then split s
  else match s with
       | EmptyString => [String c EmptyString]
       | String c' _ =>
           if is_space c' then String c EmptyString :: split s
           else match split s with
                | w :: ws => String c w :: ws
                | [] => [String c EmptyString]
                end
       end.
Proof. reflexivity. Qed.

Lemma split_space_nonempty (s : string) :
  exists w ws, split_space s = w :: ws.
Proof.
  induction s as [|c s (w & ws & IH)]; [simpl; eauto|].
  rewrite split_space_cons, IH. destruct (Ascii.eqb c " "%char); eauto.
Qed.

(** With plain spaces only, [split(" ")] differs from [split()] by empty
    fields alone. *)
Lemma split_space_split (s : string) :
  plain_spaces s = true ->
  filter (fun w => w <> EmptyString) (split_space s) = split s.
Proof.
  induction s as [|c s IH]; [reflexivity|].
  simpl plain_spaces. rewrite andb_true_iff, orb_true_iff, negb_true_iff.
  intros [Hc Hs]. specialize (IH Hs).
  rewrite split_space_cons, split_cons.
  destruct (Ascii.eqb_spec c " "%char) as [->|Hne].
  - change (is_space " "%char) with true. cbv iota.
    rewrite filter_cons, decide_False by tauto. exact IH.
  - destruct Hc as [Hc|Hc]; [|discriminate]. rewrite Hc.
    destruct s as [|c' s'].
    + simpl. rewrite filter_cons, decide_True by discriminate. reflexivity.
    + destruct (split_space_nonempty (String c' s')) as (w & ws & Hw).
      rewrite Hw in *. rewrite filter_cons, decide_True by discriminate.
      rewrite filter_cons in IH.
      simpl in Hs. rewrite andb_true_iff, orb_true_iff, negb_true_iff in Hs.
      destruct Hs as [Hc' _].
      rewrite split_space_cons in Hw.
      destruct (Ascii.eqb_spec c' " "%char) as [->|Hne'].
      * change (is_space " "%char) with true. cbv iota.
        injection Hw as <- <-.
        rewrite decide_False in IH by tauto. rewrite IH. reflexivity.
      * destruct Hc' as [Hc'|Hc']; [|discriminate]. rewrite Hc'.
        assert (Hwne : w <> EmptyString).
        { destruct (split_space s') as [|w' ws']; injection Hw as <- _;
            discriminate. }
        rewrite decide_True in IH by exact Hwne.
        rewrite <- IH. reflexivity.
Qed.

Lemma flat_map_nonempty_fields (tokenize : string -> list string)
  (l : list string) :
  tokenize EmptyString = [] ->
  flat_map tokenize (filter (fun w => w <> EmptyString) l)
  = flat_map tokenize l.
Proof.
  intros Hempty. induction l as [|w l IH]; [reflexivity|].
  rewrite filter_cons. destruct (decide (w <> EmptyString)) as [Hw|Hw]; simpl.
  - rewrite IH. reflexivity.
  - assert (w = EmptyString) as -> by (destruct w; [reflexivity | exfalso; apply Hw; discriminate]).
    rewrite Hempty, IH. reflexivity.
Qed.

(** X15.  The sequence builder and the alignment tracker tokenize the same
    words: for a single sentence whose whitespace is plain spaces, a
    tokenizer that gives no token for the empty string, and tokens that fit
    in [seq_length - 2], the feature's tokens are the tracker's
    [bert_tokens], so the assertion of line 443 holds and the validator's
    verdict is the prefix check's. *)
Theorem builder_and_tracker_agree
  (tokenize : string -> list string) (vocab : string -> Z)
  (seq_length : Z) (example : InputExample) :
  text_b example = None ->
  plain_spaces (text_a example) = true ->
  tokenize EmptyString = [] ->
  len (flat_map tokenize (split (text_a example))) <= seq_length - 2 ->
  exists f info,
    convert_example tokenize vocab seq_length example = Ok f /\
    track_example tokenize example = Ok info /\
    tokens f = bert_tokens info /\
    check_feature info f =
      if forallb (prefix_ok tokenize) (split (text_a example))
      then Ok Checked else Raise (AssertionError AssertPrefixEqual).
Proof.
  intros Hb Hplain Hempty Hfit.
  assert (Hsame : flat_map tokenize (split_space (text_a example))
                  = flat_map tokenize (split (text_a example))).
  { rewrite <- (split_space_split _ Hplain).
    symmetry. apply flat_map_nonempty_fields, Hempty. }
  eexists _, _. split; [|split; [|split]].
  - apply convert_example_single_fits; [exact Hb|]. rewrite Hsame. exact Hfit.
  - apply track_example_single, Hb.
  - simpl. rewrite Hsame. reflexivity.
  - apply check_feature_single. simpl. rewrite Hsame. reflexivity.
Qed.

Lemma builder_and_tracker_agree_witness :
  exists f info,
    convert_example word_tokenize no_vocab 6
      (mkInputExample 0 "the  dog" None) = Ok f /\
    track_example word_tokenize (mkInputExample 0 "the  dog" None) = Ok info /\
    tokens f = bert_tokens info /\
    check_feature info f =
      if forallb (prefix_ok word_tokenize) (split "the  dog")
      then Ok Checked else Raise (AssertionError AssertPrefixEqual).
Proof.
  apply (builder_and_tracker_agree word_tokenize no_vocab 6
           (mkInputExample 0 "the  dog" None)).
  - reflexivity.
  - reflexivity.
  - reflexivity.
  - vm_compute. discriminate.
Defined.

(** ** Gathered rows and the keys of the feature store *)



(** The numbers whose decimal strings are the keys of one result. *)
Definition key_numbers (unique_info : token_info) (unique_id : Z) : list Z :=
  match original_to_bert2 unique_info with
  | None => [unique_id]
  | Some _ => [2 * unique_id; 2 * unique_id + 1]
  end.

Lemma dataset_keys_numbers (unique_info : token_info) (unique_id : Z) :
  dataset_keys unique_info unique_id = map str (key_numbers unique_info unique_id).
Proof.
  unfold dataset_keys, key_numbers.
  destruct (original_to_bert2 unique_info); reflexivity.
Qed.

Lemma concat_map_map {A B C : Type} (f : B -> C) (g : A -> list B)
  (l : list A) :
  concat (map (fun x => map f (g x)) l) = map f (concat (map g l)).
Proof.
  induction l as [|x l IH]; [reflexivity|].
  simpl. rewrite IH, map_app. reflexivity.
Qed.

Lemma key_numbers_single (results : list (token_info * Z)) :
  Forall (fun r => original_to_bert2 (fst r) = None) results ->
  concat (map (fun r => key_numbers (fst r) (snd r)) results)
  = map snd results.
Proof.
  induction 1 as [|r rs Hr _ IH]; [reflexivity|].
  simpl. unfold key_numbers at 1. rewrite Hr, IH. reflexivity.
Qed.

Lemma key_numbers_pair (results : list (token_info * Z)) :
  Forall (fun r => is_Some (original_to_bert2 (fst r))) results ->
  NoDup (map snd results) ->
  NoDup (concat (map (fun r => key_numbers (fst r) (snd r)) results)) /\
  forall k, k ∈ concat (map (fun r => key_numbers (fst r) (snd r)) results) ->
            exists u, u ∈ map snd results /\ (k = 2 * u \/ k = 2 * u + 1).
Proof.
  induction 1 as [|[info u] rs [s Hs] _ IH]; intros Hnd.
  - simpl. split; [constructor | intros k Hk; inversion Hk].
  - simpl in *. apply NoDup_cons in Hnd as [Hnotin Hnd].
    destruct (IH Hnd) as [IHnd IHin].
    unfold key_numbers at 1 3. simpl. rewrite Hs. simpl. split.
    + apply NoDup_cons. split.
      * intros Hin. apply elem_of_cons in Hin as [Hin|Hin]; [lia|].
        apply IHin in Hin as (v & Hv & Hk).
        assert (v = u) by lia. subst. exact (Hnotin Hv).
      * apply NoDup_cons. split; [|exact IHnd].
        intros Hin. apply IHin in Hin as (v & Hv & Hk).
        assert (v = u) by lia. subst. exact (Hnotin Hv).
    + intros k Hk. apply elem_of_cons in Hk as [->|Hk].
      { exists u. split; [left | left; reflexivity]. }
      apply elem_of_cons in Hk as [->|Hk].
      { exists u. split; [left | right; reflexivity]. }
      apply IHin in Hk as (v & Hv & Hk). exists v. split; [right; exact Hv | exact Hk].
Qed.

(** X17.  Within one kind of example the keys of the feature store are
    distinct: for results with distinct ids that are all single sentences,
    or all sentence pairs, no dataset name is created twice. *)
Theorem keys_distinct_within_kind (results : list (token_info * Z)) :
  NoDup (map snd results) ->
  Forall (fun r => original_to_bert2 (fst r) = None) results \/
  Forall (fun r => is_Some (original_to_bert2 (fst r))) results ->
  NoDup (concat (map (fun r => dataset_keys (fst r) (snd r)) results)).
Proof.
  intros Hnd Hkind.
  assert (Heq : map (fun r => dataset_keys (fst r) (snd r)) results =
                map (fun r => map str (key_numbers (fst r) (snd r))) results).
  { apply map_ext. intros r. apply dataset_keys_numbers. }
  rewrite Heq, concat_map_map.
  apply (NoDup_fmap_2 str). destruct Hkind as [Hs|Hp].
  - rewrite (key_numbers_single results Hs). exact Hnd.
  - apply (key_numbers_pair results Hp Hnd).
Qed.

Lemma keys_distinct_within_kind_witness :
  NoDup (concat (map (fun r => dataset_keys (fst r) (snd r))
                   [(single_info word_tokenize ["a"], 1);
                    (single_info word_tokenize ["b"], 2)])).
Proof.
  apply (keys_distinct_within_kind
           [(single_info word_tokenize ["a"], 1);
            (single_info word_tokenize ["b"], 2)]).
  - apply NoDup_cons. split; [|apply NoDup_singleton].
    intros H. apply list_elem_of_singleton in H. discriminate.
  - left. repeat constructor.
Defined.

(** ** All sub-tokens instead of word starts (lines 468-495) *)

(** [l[start:stop]] with Python's negative and out-of-range bounds. *)
Definition slice {A : Type} (l : list A) (start stop : Z) : list A :=
  let norm i := if i <? 0 then Z.max (len l + i) 0 else Z.min i (len l) in
  take (Z.to_nat (norm stop - norm start)) (drop (Z.to_nat (norm start)) l).

(** [list(range(n))] *)
Definition range (n : Z) : list Z := seqZ 0 n.

(** The entry that lines 470-495 store for one feature when
    [do_tokens_only] is off: [original_to_bert], and [original_to_bert2] for
    a feature with a second segment. *)
Definition all_token_info (feature : InputFeatures)
  : list Z * option (list Z) :=
  let second := filter (fun i => 0 < i) (input_type_ids feature) in
  let single_sentence := len second =? 0 in
  let len_with_cls_sep :=
    len (filter (fun i => 0 < i) (input_ids feature)) in
  if single_sentence then (slice (range len_with_cls_sep) 1 (-1), None)
  else
    let length_sentence2_sep := len second in
    let length_sentence1_with_cls_sep :=
      len_with_cls_sep - length_sentence2_sep in
    (slice (range length_sentence1_with_cls_sep) 1 (-1),
     Some (map (fun iii => iii + length_sentence1_with_cls_sep)
               (range (length_sentence2_sep - 1)))).

Lemma slice_range_inner (n : Z) :
  0 <= n -> slice (range (n + 2)) 1 (-1) = seqZ 1 n.
Proof.
  intros Hn. unfold slice, range, len. rewrite length_seqZ.
  replace (1 <? 0) with false by lia. replace (-1 <? 0) with true by lia.
  replace (Z.to_nat (Z.max (Z.of_nat (Z.to_nat (n + 2)) + -1) 0 -
                     Z.min 1 (Z.of_nat (Z.to_nat (n + 2)))))
    with (Z.to_nat n) by lia.
  replace (Z.to_nat (Z.min 1 (Z.of_nat (Z.to_nat (n + 2))))) with 1%nat by lia.
  replace (n + 2) with (1 + (n + 1)) by lia.
  rewrite (seqZ_app 0 1 (n + 1)) by lia.
  change (seqZ 0 1) with [0]. simpl drop.
  rewrite (seqZ_app (0 + 1) n 1) by lia.
  apply take_app_length'. rewrite length_seqZ. reflexivity.
Qed.

Lemma filter_positive_zeros (n : nat) :
  filter (fun i => 0 < i) (repeat 0 n) = [].
Proof.
  induction n as [|n IH]; [reflexivity|].
  simpl. rewrite filter_cons, decide_False by lia. exact IH.
Qed.

Lemma filter_positive_all (l : list Z) :
  Forall (fun i => 0 < i) l -> filter (fun i => 0 < i) l = l.
Proof.
  induction 1 as [|x l Hx _ IH]; [reflexivity|].
  rewrite filter_cons, decide_True by exact Hx. rewrite IH. reflexivity.
Qed.

Lemma filter_positive_none (l : list Z) :
  Forall (fun i => i = 0) l -> filter (fun i => 0 < i) l = [].
Proof.
  induction 1 as [|x l Hx _ IH]; [reflexivity|].
  rewrite filter_cons, decide_False by lia. exact IH.
Qed.

Lemma map_add_seqZ (c n : Z) :
  map (fun iii => iii + c) (seqZ 0 n) = seqZ c n.
Proof.
  transitivity (Z.add c <$> seqZ 0 n).
  - apply map_ext. intros i. lia.
  - rewrite fmap_add_seqZ. f_equal. lia.
Qed.

Lemma all_token_info_unfold (f : InputFeatures) (s1 s2 : list Z) :
  filter (fun i => 0 < i) (input_type_ids f) = s2 ->
  filter (fun i => 0 < i) (input_ids f) = s1 ->
  all_token_info f =
  if len s2 =? 0 then (slice (range (len s1)) 1 (-1), None)
  else (slice (range (len s1 - len s2)) 1 (-1),
        Some (map (fun iii => iii + (len s1 - len s2))
                  (range (len s2 - 1)))).
Proof. intros <- <-. reflexivity. Qed.

Section AllTokens.

Variable vocab : string -> Z.
Hypothesis vocab_positive : forall token, 0 < vocab token.

Lemma filter_positive_ids (toks : list string) (pad : nat) :
  filter (fun i => 0 < i) (map vocab toks ++ repeat 0 pad) = map vocab toks.
Proof.
  rewrite filter_app, filter_positive_zeros, app_nil_r.
  apply filter_positive_all, Forall_forall. intros i Hi.
  apply list_elem_of_In, in_map_iff in Hi as (t & <- & _).
  apply vocab_positive.
Qed.

Lemma type_ids_zeros (a : list string) :
  Forall (fun i => i = 0) ([0] ++ map (fun _ => 0) a ++ [0]).
Proof.
  rewrite !Forall_app. repeat split; repeat constructor.
  apply Forall_forall. intros i Hi.
  apply list_elem_of_In, in_map_iff in Hi as (t & <- & _). reflexivity.
Qed.

Lemma type_ids_ones (tb : list string) :
  Forall (fun i => 0 < i) (map (fun _ => 1) tb ++ [1]).
Proof.
  rewrite Forall_app. split; [|repeat constructor; lia].
  apply Forall_forall. intros i Hi.
  apply list_elem_of_In, in_map_iff in Hi as (t & <- & _). lia.
Qed.

Lemma all_token_info_single (uid : Z) (a : list string) (pad : nat)
  (mask : list Z) :
  all_token_info
    (mkInputFeatures uid (["[CLS]"] ++ a ++ ["[SEP]"])
       (map vocab (["[CLS]"] ++ a ++ ["[SEP]"]) ++ repeat 0 pad) mask
       (([0] ++ map (fun _ => 0) a ++ [0]) ++ repeat 0 pad))
  = (seqZ 1 (len a), None).
Proof.
  rewrite (all_token_info_unfold _ (map vocab (["[CLS]"] ++ a ++ ["[SEP]"])) []).
  - change (len (@nil Z) =? 0) with true. cbv iota.
    assert (Hl : len (map vocab (["[CLS]"] ++ a ++ ["[SEP]"])) = len a + 2)
      by (len_norm; lia).
    rewrite Hl, slice_range_inner by apply len_nonneg. reflexivity.
  - cbn [input_type_ids].
    rewrite filter_app, filter_positive_zeros, app_nil_r.
    apply filter_positive_none, type_ids_zeros.
  - cbn [input_ids]. apply filter_positive_ids.
Qed.

Lemma all_token_info_pair (uid : Z) (a tb : list string) (pad : nat)
  (mask : list Z) :
  all_token_info
    (mkInputFeatures uid ((["[CLS]"] ++ a ++ ["[SEP]"]) ++ tb ++ ["[SEP]"])
       (map vocab ((["[CLS]"] ++ a ++ ["[SEP]"]) ++ tb ++ ["[SEP]"])
          ++ repeat 0 pad) mask
       ((([0] ++ map (fun _ => 0) a ++ [0]) ++ map (fun _ => 1) tb ++ [1])
          ++ repeat 0 pad))
  = (seqZ 1 (len a), Some (seqZ (len a + 2) (len tb))).
Proof.
  rewrite (all_token_info_unfold _
             (map vocab ((["[CLS]"] ++ a ++ ["[SEP]"]) ++ tb ++ ["[SEP]"]))
             (map (fun _ => 1) tb ++ [1])).
  - assert (Hl2 : len (map (fun _ : string => 1) tb ++ [1]) = len tb + 1)
      by (len_norm; lia).
    assert (Hl : len (map vocab ((["[CLS]"] ++ a ++ ["[SEP]"])
                                   ++ tb ++ ["[SEP]"])) = len a + len tb + 3)
      by (len_norm; lia).
    rewrite Hl2, Hl. pose proof (len_nonneg a). pose proof (len_nonneg tb).
    replace (len tb + 1 =? 0) with false by lia.
    replace (len a + len tb + 3 - (len tb + 1)) with (len a + 2) by lia.
    rewrite slice_range_inner by lia.
    replace (len tb + 1 - 1) with (len tb) by lia.
    unfold range. rewrite map_add_seqZ. reflexivity.
  - cbn [input_type_ids].
    rewrite filter_app, filter_positive_zeros, app_nil_r, filter_app.
    replace (filter (fun i => 0 < i) ([0] ++ map (fun _ : string => 0) a ++ [0]))
      with (@nil Z) by (symmetry; apply filter_positive_none, type_ids_zeros).
    apply filter_positive_all, type_ids_ones.
  - cbn [input_ids]. apply filter_positive_ids.
Qed.

End AllTokens.

(** X18.  When every token has a positive vocabulary id, the index lists
    built with [do_tokens_only] off are exactly the positions of the
    sub-tokens, markers left out: [1 .. len(tokens_a)] for the first
    sentence and, for a feature with a second segment,
    [len(tokens_a) + 2 .. len(tokens_a) + 1 + len(tokens_b)], where
    [tokens_a] and [tokens_b] are the truncated lists. *)
Theorem all_token_info_positions
  (tokenize : string -> list string) (vocab : string -> Z)
  (seq_length : Z) (example : InputExample) (f : InputFeatures) :
  (forall token, 0 < vocab token) ->
  convert_example tokenize vocab seq_length example = Ok f ->
  exists (a' : list string) (b' : option (list string)),
    truncate_tokens seq_length (fst (tokenize_example tokenize example))
                    (snd (tokenize_example tokenize example)) = Ok (a', b') /\
    all_token_info f =
      (seqZ 1 (len a'),
       match b' with
       | Some ((_ :: _) as tb) => Some (seqZ (len a' + 2) (len tb))
       | _ => None
       end).
Proof.
  intros Hpos Hconv.
  apply convert_example_layout in Hconv as (a' & b' & Htr & _ & ->).
  exists a', b'. split; [exact Htr|].
  destruct b' as [[|y b']|].
  - apply (all_token_info_single vocab Hpos).
  - apply (all_token_info_pair vocab Hpos).
  - apply (all_token_info_single vocab Hpos).
Qed.

Lemma all_token_info_positions_witness :
  exists (a' : list string) (b' : option (list string)),
    truncate_tokens 10
      (fst (tokenize_example word_tokenize
              (mkInputExample 0 "New York" (Some "big city"))))
      (snd (tokenize_example word_tokenize
              (mkInputExample 0 "New York" (Some "big city")))) = Ok (a', b') /\
    all_token_info
      (mkInputFeatures 0
         ["[CLS]"; "New"; "York"; "[SEP]"; "big"; "city"; "[SEP]"]
         [1; 1; 1; 1; 1; 1; 1; 0; 0; 0] [1; 1; 1; 1; 1; 1; 1; 0; 0; 0]
         [0; 0; 0; 0; 1; 1; 1; 0; 0; 0]) =
      (seqZ 1 (len a'),
       match b' with
       | Some ((_ :: _) as tb) => Some (seqZ (len a' + 2) (len tb))
       | _ => None
       end).
Proof.
  apply (all_token_info_positions word_tokenize no_vocab 10
           (mkInputExample 0 "New York" (Some "big city"))).
  - intros token. reflexivity.
  - vm_compute. reflexivity.
Defined.

(** ** Long single sentences *)

Section LongSentences.

Variable tokenize : string -> list string.
Variable vocab : string -> Z.

Lemma convert_example_single (seq_length : Z) (example : InputExample) :
  text_b example = None ->
  2 <= seq_length ->
  let kept := take (Z.to_nat (seq_length - 2))
                   (flat_map tokenize (split_space (text_a example))) in
  exists f,
    convert_example tokenize vocab seq_length example = Ok f /\
    tokens f = ["[CLS]"] ++ kept ++ ["[SEP]"].
Proof.
  intros Hb Hsl kept.
  assert (Htr : truncate_single
                  (flat_map tokenize (split_space (text_a example))) seq_length
                = kept).
  { unfold truncate_single, slice_to, kept.
    replace (seq_length - 2 <? 0) with false by lia.
    destruct (Z.gtb_spec
                (len (flat_map tokenize (split_space (text_a example))))
                (seq_length - 2)); [reflexivity|].
    symmetry. apply take_ge. unfold len in *. lia. }
  unfold convert_example, tokenize_example. rewrite Hb.
  unfold truncate_tokens. rewrite Htr. simpl mbind. unfold build_tokens.
  rewrite pad_features_ok.
  - eexists. split; reflexivity.
  - len_norm. unfold kept, len. rewrite length_take. lia.
  - len_norm. reflexivity.
Qed.

(** X19.  From [seq_length = 2] on a single sentence is always encoded, and
    only its last sub-tokens can be lost: the tokens are [[CLS]], the first
    [seq_length - 2] sub-tokens of the sentence (all of them when they are
    fewer), [[SEP]]. *)
Theorem single_sentence_keeps_first_tokens (seq_length : Z)
  (example : InputExample) :
  text_b example = None ->
  2 <= seq_length ->
  exists f,
    convert_example tokenize vocab seq_length example = Ok f /\
    tokens f =
      ["[CLS]"] ++
      take (Z.to_nat (seq_length - 2))
           (flat_map tokenize (split_space (text_a example))) ++
      ["[SEP]"].
Proof. intros Hb Hsl. apply (convert_example_single seq_length example Hb Hsl). Qed.

(** X20.  Word-alignment mode does not survive the truncation of a single
    sentence: when builder and tracker see the same words (plain spaces, no
    token for the empty string) and the sub-tokens do not fit in
    [seq_length - 2], the feature is built, but the validator stops at the
    token-sequence assertion of line 443. *)
Theorem truncated_sentence_fails_validation (seq_length : Z)
  (example : InputExample) :
  text_b example = None ->
  plain_spaces (text_a example) = true ->
  tokenize EmptyString = [] ->
  2 <= seq_length ->
  seq_length - 2 < len (flat_map tokenize (split (text_a example))) ->
  exists f info,
    convert_example tokenize vocab seq_length example = Ok f /\
    track_example tokenize example = Ok info /\
    len (tokens f) = seq_length /\
    check_feature info f = Raise (AssertionError AssertTokensEqual).
Proof.
  intros Hb Hplain Hempty Hsl Hlong.
  assert (Hsame : flat_map tokenize (split_space (text_a example))
                  = flat_map tokenize (split (text_a example))).
  { rewrite <- (split_space_split _ Hplain).
    symmetry. apply flat_map_nonempty_fields, Hempty. }
  destruct (convert_example_single seq_length example Hb Hsl)
    as (f & Hf & Htok).
  rewrite Hsame in Htok.
  assert (Hlen : len (tokens f) = seq_length).
  { rewrite Htok. len_norm. unfold len in *. rewrite length_take. lia. }
  exists f, (single_info tokenize (split (text_a example))).
  split; [exact Hf|]. split; [apply track_example_single, Hb|].
  split; [exact Hlen|].
  unfold check_feature. simpl original_tokens2. cbv iota.
  rewrite bool_decide_eq_false_2; [reflexivity|].
  simpl bert_tokens. intros Heq. rewrite <- Heq in Hlen.
  revert Hlen. len_norm. lia.
Qed.

End LongSentences.

Lemma single_sentence_keeps_first_tokens_witness :
  exists f,
    convert_example word_tokenize no_vocab 3
      (mkInputExample 0 "a b" None) = Ok f /\
    tokens f =
      ["[CLS]"] ++
      take (Z.to_nat (3 - 2)) (flat_map word_tokenize (split_space "a b")) ++
      ["[SEP]"].
Proof.
  apply (single_sentence_keeps_first_tokens word_tokenize no_vocab 3
           (mkInputExample 0 "a b" None)).
  - reflexivity.
  - lia.
Defined.

Lemma truncated_sentence_fails_validation_witness :
  exists f info,
    convert_example word_tokenize no_vocab 3
      (mkInputExample 0 "a b" None) = Ok f /\
    track_example word_tokenize (mkInputExample 0 "a b" None) = Ok info /\
    len (tokens f) = 3 /\
    check_feature info f = Raise (AssertionError AssertTokensEqual).
Proof.
  apply (truncated_sentence_fails_validation word_tokenize no_vocab 3
           (mkInputExample 0 "a b" None)).
  - reflexivity.
  - reflexivity.
  - reflexivity.
  - lia.
  - vm_compute. reflexivity.
Defined.
